(** * Pong engine (src/src/pong-game.js): shallow embedding and properties

    JavaScript numbers are modelled as real numbers: [Math.cos], [Math.sin]
    and the arithmetic of the engine are read in exact real arithmetic.
    The properties stated on this model are those that the rounding of
    binary64 arithmetic keeps: comparisons, bounds that every rounded
    operation respects, signs.  Where the rounding of a sum decides the
    result, the paddle movers are embedded a second time in [Binary64], on
    IEEE 754 binary64 numbers, and their properties are in [Binary64Facts].
    The process-wide generator behind [Math.random] is modelled as an
    explicit state that every function reading it threads through.

    The catalogue functions of src/src/tip-tracker.js are embedded in
    [TipTracker], their properties are in [TipTrackerFacts]. *)

From Stdlib Require Import Reals Lra Lia List Bool Arith ZArith.
From Stdlib Require Strings.Ascii Strings.String.
From Stdlib Require Floats.
Import ListNotations.
Open Scope R_scope.

(** ** JavaScript primitives used by the engine *)

(** Comparisons of numbers, as booleans. *)
Definition Rltb (x y : R) : bool := if Rlt_dec x y then true else false.
Definition Rleb (x y : R) : bool := if Rle_dec x y then true else false.
Definition Rgtb (x y : R) : bool := Rltb y x.
Definition Rgeb (x y : R) : bool := Rleb y x.
(** [x === y] on numbers. *)
Definition Reqb (x y : R) : bool := if Req_dec_T x y then true else false.

(** [Math.sign]. *)
Definition Math_sign (x : R) : R :=
  if Rltb 0 x then 1 else if Rltb x 0 then -1 else 0.

(** [Math.max], [Math.min], [Math.abs], [Math.cos], [Math.sin]. *)
Definition Math_max : R -> R -> R := Rmax.
Definition Math_min : R -> R -> R := Rmin.
Definition Math_abs : R -> R := Rabs.
Definition Math_cos : R -> R := cos.
Definition Math_sin : R -> R := sin.

(** *** The global generator of [Math.random]

    The generator is an infinite sequence of draws together with the
    position of the next one. *)
Record Generator : Type := mkGenerator {
  draws : nat -> R;
  cursor : nat
}.

(** Computations that may read the global generator. *)
Definition Rand (A : Type) : Type := Generator -> A * Generator.

Definition ret {A : Type} (a : A) : Rand A := fun g => (a, g).

Definition bind {A B : Type} (m : Rand A) (k : A -> Rand B) : Rand B :=
  fun g => let (a, g') := m g in k a g'.

Notation "x <- m ;; k" := (bind m (fun x => k))
  (at level 61, m at next level, right associativity).

(** [Math.random()]: the next draw; the generator moves on by one. *)
Definition Math_random : Rand R :=
  fun g => (draws g (cursor g), mkGenerator (draws g) (S (cursor g))).

(** A generator whose draws all lie in [[0, 1)], as [Math.random] promises. *)
Definition unit_draws (g : Generator) : Prop :=
  forall n : nat, 0 <= draws g n < 1.

(** ** Configuration *)

Module PONG_CONFIG.
Definition width : R := 500.
Definition height : R := 300.
Definition paddleWidth : R := 12.
Definition paddleHeight : R := 70.
Definition paddleSpeed : R := 6.
Definition paddleMargin : R := 15.
Definition ballSize : R := 10.
Definition ballSpeedInitial : R := 4.
Definition ballSpeedIncrement : R := 15 / 100.
Definition ballSpeedMax : R := 8.
Definition pointsToWin : nat := 5.
Definition countdownSeconds : R := 3.
End PONG_CONFIG.

(** ** Data model *)

Inductive Phase : Type := countdown_phase | playing | finished.

Record Player : Type := mkPlayer { player_y : R }.

Record Ai : Type := mkAi { ai_y : R; targetY : R }.

Record Ball : Type := mkBall {
  x : R;
  y : R;
  vx : R;
  vy : R;
  speed : R
}.

Record Score : Type := mkScore { score_player : nat; score_ai : nat }.

Record Input : Type := mkInput { up : bool; down : bool }.

Record State : Type := mkState {
  phase : Phase;
  countdown : R;
  player : Player;
  ai : Ai;
  ball : Ball;
  score : Score;
  input : Input
}.

(** The two sides of the court: the result of [checkScore] and of
    [checkWinner] is ['player'], ['ai'] or [null]. *)
Inductive Side : Type := side_player | side_ai.

(** ** Operations *)

Definition createInitialState : State :=
  {| phase := countdown_phase;
     countdown := PONG_CONFIG.countdownSeconds;
     player := {| player_y := PONG_CONFIG.height / 2 - PONG_CONFIG.paddleHeight / 2 |};
     ai := {| ai_y := PONG_CONFIG.height / 2 - PONG_CONFIG.paddleHeight / 2;
              targetY := PONG_CONFIG.height / 2 |};
     ball := {| x := PONG_CONFIG.width / 2 - PONG_CONFIG.ballSize / 2;
                y := PONG_CONFIG.height / 2 - PONG_CONFIG.ballSize / 2;
                vx := 0;
                vy := 0;
                speed := PONG_CONFIG.ballSpeedInitial |};
     score := {| score_player := 0; score_ai := 0 |};
     input := {| up := false; down := false |} |}.

Definition clampPaddleY (y0 : R) : R :=
  Math_max 0 (Math_min (PONG_CONFIG.height - PONG_CONFIG.paddleHeight) y0).

(** The two updates are exact here; with the rounding of each one the
    function is [Binary64.movePlayerPaddle]. *)
Definition movePlayerPaddle (currentY : R) (inp : Input) (frameSpeed : R) : R :=
  let newY := currentY in
  let newY := if up inp then newY - PONG_CONFIG.paddleSpeed * frameSpeed else newY in
  let newY := if down inp then newY + PONG_CONFIG.paddleSpeed * frameSpeed else newY in
  clampPaddleY newY.

(** *** Trajectory prediction *)

Definition maxIterations : nat := 10.

(** The guard of the folding loop of [predictBallY]. *)
Definition foldGuard (predictedY : R) (iterations : nat) : bool :=
  (Rltb predictedY 0 || Rgtb predictedY (PONG_CONFIG.height - PONG_CONFIG.ballSize))
  && (iterations <? maxIterations)%nat.

(** The body of the folding loop, on [predictedY]: two successive [if]s. *)
Definition foldBody (predictedY : R) : R :=
  let predictedY := if Rltb predictedY 0 then - predictedY else predictedY in
  if Rgtb predictedY (PONG_CONFIG.height - PONG_CONFIG.ballSize)
  then 2 * (PONG_CONFIG.height - PONG_CONFIG.ballSize) - predictedY
  else predictedY.

(** The [while] loop, run for at most [fuel] passes; [None] when the fuel
    runs out before the guard fails.  The result is the final value of the
    loop variables [(predictedY, iterations)]. *)
Fixpoint foldLoop (fuel : nat) (predictedY : R) (iterations : nat)
  : option (R * nat) :=
  if foldGuard predictedY iterations then
    match fuel with
    | O => None
    | S fuel' => foldLoop fuel' (foldBody predictedY) (S iterations)
    end
  else Some (predictedY, iterations).

(** [predictBallY] with the loop run on [fuel]. *)
Definition predictBallY_fuel (fuel : nat) (b : Ball) (targetX : R) : option R :=
  if Reqb (vx b) 0 then Some (y b) else
  let timeToReach := (targetX - x b) / vx b in
  if Rltb timeToReach 0 then Some (y b) else
  let predictedY := y b + vy b * timeToReach in
  option_map fst (foldLoop fuel predictedY 0).

(** [predictBallY]: the loop never needs more than [maxIterations] passes
    (see [foldLoop_terminates]); the default is never taken. *)
Definition predictBallY (b : Ball) (targetX : R) : R :=
  match predictBallY_fuel maxIterations b targetX with
  | Some r => r
  | None => y b
  end.

(** *** AI controller *)

Definition calculateAITarget (b : Ball) (currentAiY : R) : Rand R :=
  let aiX := PONG_CONFIG.width - PONG_CONFIG.paddleMargin - PONG_CONFIG.paddleWidth in
  if Rgtb (vx b) 0 then
    let predictedY := predictBallY b aiX in
    r <- Math_random ;;
    ret (predictedY - PONG_CONFIG.paddleHeight / 2 + (r - 5 / 10) * 30)
  else
    ret (PONG_CONFIG.height / 2 - PONG_CONFIG.paddleHeight / 2).

(** The difference and the sum are exact here; with their rounding the
    function is [Binary64.moveAIPaddle]. *)
Definition moveAIPaddle (currentY targetY0 frameSpeed : R) : R :=
  let aiSpeed := PONG_CONFIG.paddleSpeed * (9 / 10) in
  let diff := targetY0 - currentY in
  if Rleb (Math_abs diff) 2 then currentY else
  let movement := Math_sign diff * Math_min (Math_abs diff) (aiSpeed * frameSpeed) in
  clampPaddleY (currentY + movement).

(** *** Collisions *)

Record WallCollision : Type := mkWallCollision {
  collided : bool;
  newY : R;
  newVy : R
}.

Definition checkWallCollision (b : Ball) : WallCollision :=
  if Rleb (y b) 0 then
    {| collided := true; newY := 0; newVy := Math_abs (vy b) |}
  else if Rgeb (y b) (PONG_CONFIG.height - PONG_CONFIG.ballSize) then
    {| collided := true;
       newY := PONG_CONFIG.height - PONG_CONFIG.ballSize;
       newVy := - Math_abs (vy b) |}
  else {| collided := false; newY := y b; newVy := vy b |}.

(** The result of [checkPaddleCollision]: [{hit: false}] is [None],
    [{hit: true, newBall}] is [Some newBall]. *)
Definition checkPaddleCollision (b : Ball) (paddleX paddleY : R)
    (isLeftPaddle : bool) : option Ball :=
  let ballCenter := y b + PONG_CONFIG.ballSize / 2 in
  let paddleCenter := paddleY + PONG_CONFIG.paddleHeight / 2 in
  let inXRange :=
    if isLeftPaddle
    then Rleb (x b) (paddleX + PONG_CONFIG.paddleWidth) && Rgeb (x b) paddleX
         && Rltb (vx b) 0
    else Rgeb (x b) (paddleX - PONG_CONFIG.ballSize) && Rleb (x b) paddleX
         && Rgtb (vx b) 0 in
  if negb inXRange then None else
  if Rltb ballCenter paddleY || Rgtb ballCenter (paddleY + PONG_CONFIG.paddleHeight)
  then None else
  let hitPos := (ballCenter - paddleCenter) / (PONG_CONFIG.paddleHeight / 2) in
  let angle := hitPos * (8 / 10) in
  let newSpeed :=
    Math_min PONG_CONFIG.ballSpeedMax (speed b + PONG_CONFIG.ballSpeedIncrement) in
  let newVx :=
    if isLeftPaddle then newSpeed * Math_cos angle else - newSpeed * Math_cos angle in
  let newVy := newSpeed * Math_sin angle in
  let newX :=
    if isLeftPaddle then paddleX + PONG_CONFIG.paddleWidth
    else paddleX - PONG_CONFIG.ballSize in
  Some {| x := newX; y := y b; vx := newVx; vy := newVy; speed := newSpeed |}.

(** *** Scoring *)

Definition checkScore (b : Ball) : option Side :=
  if Rltb (x b) 0 then Some side_ai
  else if Rgtb (x b) PONG_CONFIG.width then Some side_player
  else None.

Definition checkWinner (s : Score) : option Side :=
  if (PONG_CONFIG.pointsToWin <=? score_player s)%nat then Some side_player
  else if (PONG_CONFIG.pointsToWin <=? score_ai s)%nat then Some side_ai
  else None.

(** *** Serve *)

Record Velocity : Type := mkVelocity { serve_vx : R; serve_vy : R }.

(** [seed = null] (the default) is [None]. *)
Definition generateServeVelocity (seed : option R) : Rand Velocity :=
  let random : Rand R :=
    match seed with
    | Some s => ret s
    | None => Math_random
    end in
  r1 <- random ;;
  let angle := r1 * (8 / 10) - 4 / 10 in
  r2 <- random ;;
  let direction := if Rgtb r2 (5 / 10) then 1 else -1 in
  ret {| serve_vx := direction * PONG_CONFIG.ballSpeedInitial * Math_cos angle;
         serve_vy := PONG_CONFIG.ballSpeedInitial * Math_sin angle |}.

(** ** The per-frame advance operation *)

Section Advance.

(** The factor by which the elapsed time of a frame scales the per-tick
    speeds; the engine module does not fix it. *)
Variable frameTimeScale : R -> R.

(** The horizontal positions of the two paddles. *)
Definition playerPaddleX : R := PONG_CONFIG.paddleMargin.

Definition aiPaddleX : R :=
  PONG_CONFIG.width - PONG_CONFIG.paddleMargin - PONG_CONFIG.paddleWidth.

(** Modelled from the spec: the integration step of the ball,
    [ball.x += ball.vx * frameTimeScale; ball.y += ball.vy * frameTimeScale];
    it is not part of [pong-game.js]. *)
Definition integrateBall (b : Ball) (fs : R) : Ball :=
  {| x := x b + vx b * fs; y := y b + vy b * fs;
     vx := vx b; vy := vy b; speed := speed b |}.

(** Modelled from the spec: the ball served from the centre of the court,
    with the velocity of the Serve Generator and the initial speed. *)
Definition serveBall : Rand Ball :=
  v <- generateServeVelocity None ;;
  ret {| x := PONG_CONFIG.width / 2 - PONG_CONFIG.ballSize / 2;
         y := PONG_CONFIG.height / 2 - PONG_CONFIG.ballSize / 2;
         vx := serve_vx v; vy := serve_vy v;
         speed := PONG_CONFIG.ballSpeedInitial |}.

Definition addPoint (side : Side) (s : Score) : Score :=
  match side with
  | side_player => {| score_player := S (score_player s); score_ai := score_ai s |}
  | side_ai => {| score_player := score_player s; score_ai := S (score_ai s) |}
  end.

(** Modelled from the spec: one tick of the Playing phase (the physics
    update of the host page is not part of [pong-game.js]): both paddles
    move, the ball is integrated, wall then paddle collisions (left, then
    right) are resolved, and a score either ends the match or re-serves. *)
Definition updatePong (s : State) (elapsedTime : R) (inp : Input) : Rand State :=
  let fs := frameTimeScale elapsedTime in
  let playerY := movePlayerPaddle (player_y (player s)) inp fs in
  target <- calculateAITarget (ball s) (ai_y (ai s)) ;;
  let aiY := moveAIPaddle (ai_y (ai s)) target fs in
  let b1 := integrateBall (ball s) fs in
  let w := checkWallCollision b1 in
  let b2 := {| x := x b1; y := newY w; vx := vx b1; vy := newVy w; speed := speed b1 |} in
  let b3 :=
    match checkPaddleCollision b2 playerPaddleX playerY true with
    | Some nb => nb
    | None =>
        match checkPaddleCollision b2 aiPaddleX aiY false with
        | Some nb => nb
        | None => b2
        end
    end in
  let moved (ph : Phase) (b : Ball) (sc : Score) : State :=
    {| phase := ph; countdown := countdown s;
       player := {| player_y := playerY |};
       ai := {| ai_y := aiY; targetY := target |};
       ball := b; score := sc; input := inp |} in
  match checkScore b3 with
  | None => ret (moved playing b3 (score s))
  | Some side =>
      let sc := addPoint side (score s) in
      match checkWinner sc with
      | Some _ => ret (moved finished b3 sc)
      | None => b <- serveBall ;; ret (moved playing b sc)
      end
  end.

(** Modelled from the spec: [advance(state, elapsedTime, input)], the
    Match State Machine of the host page (not part of [pong-game.js]).
    Countdown decrements and serves when it reaches zero, Playing runs one
    physics tick, Finished is terminal. *)
Definition advance (s : State) (elapsedTime : R) (inp : Input) : Rand State :=
  match phase s with
  | countdown_phase =>
      let remaining := countdown s - elapsedTime in
      if Rleb remaining 0 then
        v <- generateServeVelocity None ;;
        ret {| phase := playing; countdown := remaining;
               player := player s; ai := ai s;
               ball := {| x := x (ball s); y := y (ball s);
                          vx := serve_vx v; vy := serve_vy v;
                          speed := PONG_CONFIG.ballSpeedInitial |};
               score := score s; input := inp |}
      else
        ret {| phase := countdown_phase; countdown := remaining;
               player := player s; ai := ai s; ball := ball s;
               score := score s; input := inp |}
  | playing => updatePong s elapsedTime inp
  | finished => ret s
  end.

(** The host loop: one [advance] per frame, each with its elapsed time and
    its input snapshot. *)
Fixpoint advanceAll (frames : list (R * Input)) (s : State) : Rand State :=
  match frames with
  | [] => ret s
  | (elapsedTime, inp) :: rest =>
      s' <- advance s elapsedTime inp ;; advanceAll rest s'
  end.

End Advance.

(** ** Vocabulary of the properties *)

(** The deflection angle of a hit, from the ball's and the paddle's [y]. *)
Definition hitAngle (b : Ball) (paddleY : R) : R :=
  ((y b + PONG_CONFIG.ballSize / 2) - (paddleY + PONG_CONFIG.paddleHeight / 2))
  / (PONG_CONFIG.paddleHeight / 2) * (8 / 10).

(** The outer edge of a paddle, where the ball is put after a hit. *)
Definition outerEdge (paddleX : R) (isLeftPaddle : bool) : R :=
  if isLeftPaddle then paddleX + PONG_CONFIG.paddleWidth
  else paddleX - PONG_CONFIG.ballSize.


Definition inCourt (y0 : R) : Prop :=
  0 <= y0 <= PONG_CONFIG.height - PONG_CONFIG.ballSize.

(** The randomness source of a serve: the seed when one is passed (every
    draw is the seed), the global generator otherwise.  Its draws lie in
    [[0, 1)]. *)
Definition sourceInUnit (seed : option R) (g : Generator) : Prop :=
  match seed with
  | Some s => 0 <= s < 1
  | None => unit_draws g
  end.

(** The serve velocity in terms of the two draws it is made from. *)
Definition serveFrom (r1 r2 : R) : Velocity :=
  {| serve_vx := (if Rgtb r2 (5 / 10) then 1 else -1)
                 * PONG_CONFIG.ballSpeedInitial * cos (r1 * (8 / 10) - 4 / 10);
     serve_vy := PONG_CONFIG.ballSpeedInitial * sin (r1 * (8 / 10) - 4 / 10) |}.

(** A computation whose result is the same whatever the state of the global
    generator, and which leaves the generator as it found it. *)
Definition generatorFree {A : Type} (m : Rand A) : Prop :=
  forall g1 g2 : Generator, fst (m g1) = fst (m g2) /\ snd (m g1) = g1.

(** The next draw of the global generator. *)
Definition nextDraw (g : Generator) : R := draws g (cursor g).


(** ** Concrete balls, states and generators *)

(** A ball heading for the AI paddle. *)
Definition incomingBall : Ball :=
  {| x := 100; y := 100; vx := 10; vy := 0; speed := 4 |}.

(** A global generator whose every draw is [r]. *)
Definition constantGenerator (r : R) : Generator :=
  {| draws := fun _ => r; cursor := 0 |}.

Definition hitBall : Ball :=
  {| x := 20; y := 130; vx := -5; vy := 0; speed := 4 |}.

Definition reflectedBall : Ball :=
  {| x := 27; y := 130; vx := 83 / 20; vy := 0; speed := 83 / 20 |}.

Definition awayBall : Ball :=
  {| x := 20; y := 130; vx := 5; vy := 0; speed := 4 |}.

Definition bouncingBall : Ball :=
  {| x := 100; y := 50; vx := 10; vy := -10; speed := 4 |}.

Definition finalState : State :=
  {| phase := finished;
     countdown := 0;
     player := {| player_y := 40 |};
     ai := {| ai_y := 180; targetY := 175 |};
     ball := {| x := 507; y := 145; vx := 8; vy := 0; speed := 8 |};
     score := {| score_player := 5; score_ai := 3 |};
     input := {| up := false; down := false |} |}.

Definition matchPoint : State :=
  {| phase := playing;
     countdown := 0;
     player := {| player_y := 40 |};
     ai := {| ai_y := 180; targetY := 175 |};
     ball := {| x := 499; y := 145; vx := 8; vy := 0; speed := 8 |};
     score := {| score_player := 4; score_ai := 3 |};
     input := {| up := false; down := false |} |}.

Definition sixtyFps (elapsedTime : R) : R := elapsedTime * 60 / 1000.

(** A global generator that agrees with [constantGenerator (1 / 4)] on its
    next draw only. *)
Definition laterGenerator : Generator :=
  {| draws := fun n => match n with O => 1 / 4 | S _ => 3 / 4 end; cursor := 0 |}.

(** A global generator that has already given one draw. *)
Definition shiftedGenerator : Generator :=
  {| draws := fun n => match n with O => 3 / 4 | S _ => 1 / 4 end; cursor := 1 |}.

(** A ball above the top wall, and the same ball once the wall collision is
    resolved. *)
Definition topBall : Ball :=
  {| x := 250; y := -5; vx := 4; vy := -3; speed := 5 |}.

Definition resolvedTopBall : Ball :=
  {| x := 250; y := 0; vx := 4; vy := 3; speed := 5 |}.

Definition steepBall : Ball :=
  {| x := 0; y := 0; vx := 1; vy := -10000; speed := 4 |}.

(** ** The paddle movers on binary64 numbers

    [clampPaddleY], [movePlayerPaddle] and [moveAIPaddle] once more, on the
    numbers JavaScript computes with: every [+], [-] and [*] rounds to the
    nearest binary64 number, comparisons with [NaN] are false. *)

Module Binary64.

Import Floats.
#[local] Open Scope float_scope.
#[local] Set Warnings "-inexact-float".

Module PONG_CONFIG.
Definition height : float := 300.
Definition paddleHeight : float := 70.
Definition paddleSpeed : float := 6.
End PONG_CONFIG.

(** [Math.abs]. *)
Definition Math_abs : float -> float := abs.

(** [Math.sign]: [NaN] for [NaN], [1] or [-1] for a positive or a negative
    number, and a zero is returned as it is. *)
Definition Math_sign (x : float) : float :=
  if is_nan x then nan
  else if 0 <? x then 1
  else if x <? 0 then -1
  else x.

(** [Math.min] and [Math.max]: [NaN] when an argument is [NaN]; [-0] counts
    as smaller than [+0]. *)
Definition Math_min (a b : float) : float :=
  if is_nan a || is_nan b then nan
  else if a <? b then a
  else if b <? a then b
  else if get_sign a then a else b.

Definition Math_max (a b : float) : float :=
  if is_nan a || is_nan b then nan
  else if a <? b then b
  else if b <? a then a
  else if get_sign a then b else a.

Definition clampPaddleY (y0 : float) : float :=
  Math_max 0 (Math_min (PONG_CONFIG.height - PONG_CONFIG.paddleHeight) y0).

Definition movePlayerPaddle (currentY : float) (inp : Input) (frameSpeed : float)
  : float :=
  let newY := currentY in
  let newY := if up inp then newY - PONG_CONFIG.paddleSpeed * frameSpeed else newY in
  let newY := if down inp then newY + PONG_CONFIG.paddleSpeed * frameSpeed else newY in
  clampPaddleY newY.

Definition moveAIPaddle (currentY targetY0 frameSpeed : float) : float :=
  let aiSpeed := PONG_CONFIG.paddleSpeed * 0.9 in
  let diff := targetY0 - currentY in
  if Math_abs diff <=? 2 then currentY else
  let movement := Math_sign diff * Math_min (Math_abs diff) (aiSpeed * frameSpeed) in
  clampPaddleY (currentY + movement).


(** A position of a paddle inside the court, [0 <= y <= height - paddleHeight]. *)
Definition inRange (y0 : float) : bool :=
  (0 <=? y0) && (y0 <=? PONG_CONFIG.height - PONG_CONFIG.paddleHeight).


End Binary64.

(** ** Tip tracker (src/src/tip-tracker.js)

    Strings are strings of 8-bit code units; grid indices, tip sizes and
    counts are integers. *)

Module TipTracker.

Import Strings.String.

(** [GRID_CONFIG]. *)
Definition tip10_rowLabels : list string :=
  ["A"; "B"; "C"; "D"; "E"; "F"; "G"; "H"]%string.

Definition tip10_colLabels : list string :=
  ["1"; "2"; "3"; "4"; "5"; "6"; "7"; "8"; "9"; "10"; "11"; "12"]%string.

Definition tip100_colLabels : list string :=
  ["A"; "B"; "C"; "D"; "E"; "F"; "G"; "H"; "I"; "J"; "K"; "L"]%string.

Definition tip100_rowLabels : list string :=
  ["1"; "2"; "3"; "4"; "5"; "6"; "7"; "8"]%string.

Definition rows : Z := 8.

Definition cols : Z := 12.

(** [Array.prototype.indexOf] on an array of strings: the first index of a
    strictly equal element, [-1] when there is none. *)
Fixpoint indexOfFrom (i : Z) (labels : list string) (s : string) : Z :=
  match labels with
  | [] => (-1)%Z
  | l :: rest => if String.eqb l s then i else indexOfFrom (i + 1)%Z rest s
  end.

Definition indexOf (labels : list string) (s : string) : Z :=
  indexOfFrom 0%Z labels s.

(** [labels[i]] for an integer [i] inside the array. *)
Definition label (labels : list string) (i : Z) : string :=
  nth (Z.to_nat i) labels EmptyString.

(** [s.charAt(0)] and [s.slice(1)]. *)
Definition charAt0 (s : string) : string :=
  match s with
  | EmptyString => EmptyString
  | String c _ => String c EmptyString
  end.

Definition slice1 (s : string) : string :=
  match s with
  | EmptyString => EmptyString
  | String _ rest => rest
  end.

Record GridPosition : Type := mkGridPosition { row : Z; col : Z }.

Section Coordinates.

(** [String.prototype.toUpperCase], a function of the JavaScript library. *)
Variable toUpperCase : string -> string.

Definition parseCoordToGridPosition (coord : string) (tipSize : Z)
  : option GridPosition :=
  if (String.length coord =? 0)%nat || (String.length coord <? 2)%nat then None
  else
    let letter := toUpperCase (charAt0 coord) in
    let number := slice1 coord in
    if (tipSize =? 10)%Z then
      let rowIndex := indexOf tip10_rowLabels letter in
      let colIndex := indexOf tip10_colLabels number in
      if (rowIndex =? -1)%Z || (colIndex =? -1)%Z then None
      else Some {| row := rowIndex; col := colIndex |}
    else if (tipSize =? 100)%Z then
      let colIndex := indexOf tip100_colLabels letter in
      let rowIndex := indexOf tip100_rowLabels number in
      if (rowIndex =? -1)%Z || (colIndex =? -1)%Z then None
      else Some {| row := rowIndex; col := colIndex |}
    else None.

End Coordinates.

Definition gridPositionToCoord (row col tipSize : Z) : option string :=
  if (row <? 0)%Z || (row >=? rows)%Z || (col <? 0)%Z || (col >=? cols)%Z then None
  else if (tipSize =? 10)%Z then
    Some (label tip10_rowLabels row ++ label tip10_colLabels col)%string
  else if (tipSize =? 100)%Z then
    Some (label tip100_colLabels col ++ label tip100_rowLabels row)%string
  else None.

(** A catalogued tip. *)
Record Tip : Type := mkTip {
  ingredient : string;
  tipSize : Z;
  coord : string;
  date : string
}.

(** The test [t.coord === coord && t.tipSize === tipSize] of the three
    catalogue operations. *)
Definition sameSlot (c : string) (size : Z) (t : Tip) : bool :=
  String.eqb (coord t) c && (tipSize t =? size)%Z.

(** [tips.find(...) || null]. *)
Definition findExistingTip (tips : list Tip) (c : string) (size : Z) : option Tip :=
  find (sameSlot c size) tips.

Record AddResult : Type := mkAddResult {
  tips : list Tip;
  replaced : option Tip;
  error : option string
}.

Definition isSome {A : Type} (o : option A) : bool :=
  match o with Some _ => true | None => false end.

Definition addTip (tips0 : list Tip) (newTip : Tip) (replace : bool) : AddResult :=
  let existing := findExistingTip tips0 (coord newTip) (tipSize newTip) in
  if isSome existing && negb replace then
    {| tips := tips0; replaced := None;
       error := Some "Coordinate already occupied"%string |}
  else
    let newTips :=
      if isSome existing
      then filter (fun t => negb (sameSlot (coord newTip) (tipSize newTip) t)) tips0
      else tips0 in
    {| tips := newTips ++ [newTip]; replaced := existing; error := None |}.

Definition deleteTip (tips0 : list Tip) (c : string) (size : Z) : list Tip :=
  filter (fun t => negb (sameSlot c size t)) tips0.

Record Stats : Type := mkStats {
  total : nat;
  tip10Count : nat;
  tip100Count : nat
}.

Definition calculateStats (tips0 : list Tip) : Stats :=
  {| total := List.length tips0;
     tip10Count := List.length (filter (fun t => (tipSize t =? 10)%Z) tips0);
     tip100Count := List.length (filter (fun t => (tipSize t =? 100)%Z) tips0) |}.

(** The default value of the [tipsPerToken] parameter. *)
Definition defaultTipsPerToken (tipsPerToken : option Z) : Z :=
  match tipsPerToken with Some t => t | None => 5%Z end.

(** [Math.floor(tipsAdded / tipsPerToken)] on the integers a JavaScript
    number holds exactly (those of magnitude at most [2^53]): the floor of
    the quotient; [None] stands for the result of a division by zero, which
    is not an integer ([NaN] or an infinity). *)
Definition calculateTokensEarned (tipsAdded : Z) (tipsPerToken : option Z)
  : option Z :=
  let t := defaultTipsPerToken tipsPerToken in
  if (t =? 0)%Z then None else Some (tipsAdded / t)%Z.

(** [(currentCount + 1) % tipsPerToken === 0] on the integers a JavaScript
    number holds exactly, for a count below [2^53] in magnitude, so that
    [currentCount + 1] is exact too: [%] is the remainder of the truncated
    division, and a remainder by zero is [NaN], which is not [0]. *)
Definition wouldEarnToken (currentCount : Z) (tipsPerToken : option Z) : bool :=
  let t := defaultTipsPerToken tipsPerToken in
  if (t =? 0)%Z then false else (Z.rem (currentCount + 1) t =? 0)%Z.

(** No two tips of a catalogue share a coordinate and a tip size. *)
Definition uniqueSlots (tips0 : list Tip) : Prop :=
  NoDup (map (fun t => (coord t, tipSize t)) tips0).

(** ASCII upper-casing, as [toUpperCase] acts on strings of ASCII
    characters. *)
Definition asciiUpper (c : Ascii.ascii) : Ascii.ascii :=
  let n := Ascii.nat_of_ascii c in
  if ((97 <=? n) && (n <=? 122))%nat then Ascii.ascii_of_nat (n - 32) else c.

Fixpoint asciiToUpperCase (s : string) : string :=
  match s with
  | EmptyString => EmptyString
  | String c rest => String (asciiUpper c) (asciiToUpperCase rest)
  end.

Definition musk : Tip :=
  {| ingredient := "Musk"; tipSize := 10; coord := "A1"; date := "2024-01-01" |}.

Definition rose : Tip :=
  {| ingredient := "Rose"; tipSize := 100; coord := "A1"; date := "2024-01-02" |}.

Definition cedar : Tip :=
  {| ingredient := "Cedar"; tipSize := 10; coord := "A1"; date := "2024-01-03" |}.

End TipTracker.

(** ** Reflection of the comparisons *)

Lemma Rltb_true (a b : R) : Rltb a b = true <-> a < b.
Proof. unfold Rltb; destruct (Rlt_dec a b); split; intros; try easy. Qed.

Lemma Rltb_false (a b : R) : Rltb a b = false <-> b <= a.
Proof.
  unfold Rltb; destruct (Rlt_dec a b); split; intros; try easy; lra.
Qed.

Lemma Rleb_true (a b : R) : Rleb a b = true <-> a <= b.
Proof. unfold Rleb; destruct (Rle_dec a b); split; intros; try easy. Qed.

Lemma Rleb_false (a b : R) : Rleb a b = false <-> b < a.
Proof.
  unfold Rleb; destruct (Rle_dec a b); split; intros; try easy; lra.
Qed.

Lemma Reqb_true (a b : R) : Reqb a b = true <-> a = b.
Proof. unfold Reqb; destruct (Req_dec_T a b); split; intros; try easy. Qed.

Lemma Reqb_false (a b : R) : Reqb a b = false <-> a <> b.
Proof. unfold Reqb; destruct (Req_dec_T a b); split; intros; try easy. Qed.

(** Case analysis on every comparison in the goal, leaving the order facts
    in the context. *)
Ltac cases_cmp :=
  unfold Rgtb, Rgeb in *;
  repeat match goal with
  | |- context [Rltb ?a ?b] =>
      let E := fresh "E" in
      destruct (Rltb a b) eqn:E;
      [apply Rltb_true in E | apply Rltb_false in E]
  | |- context [Rleb ?a ?b] =>
      let E := fresh "E" in
      destruct (Rleb a b) eqn:E;
      [apply Rleb_true in E | apply Rleb_false in E]
  | |- context [Reqb ?a ?b] =>
      let E := fresh "E" in
      destruct (Reqb a b) eqn:E;
      [apply Reqb_true in E | apply Reqb_false in E]
  end.

(** Comparisons between closed terms, decided by linear arithmetic. *)
Ltac decide_cmp :=
  unfold Rgtb, Rgeb;
  repeat match goal with
  | |- context [Rltb ?a ?b] =>
      first [ replace (Rltb a b) with true by (symmetry; apply Rltb_true; lra)
            | replace (Rltb a b) with false by (symmetry; apply Rltb_false; lra) ]
  | |- context [Rleb ?a ?b] =>
      first [ replace (Rleb a b) with true by (symmetry; apply Rleb_true; lra)
            | replace (Rleb a b) with false by (symmetry; apply Rleb_false; lra) ]
  | |- context [Reqb ?a ?b] =>
      first [ replace (Reqb a b) with true by (symmetry; apply Reqb_true; lra)
            | replace (Reqb a b) with false by (symmetry; apply Reqb_false; lra) ]
  end.

Ltac unfold_config :=
  unfold PONG_CONFIG.width, PONG_CONFIG.height, PONG_CONFIG.paddleWidth,
    PONG_CONFIG.paddleHeight, PONG_CONFIG.paddleSpeed, PONG_CONFIG.paddleMargin,
    PONG_CONFIG.ballSize, PONG_CONFIG.ballSpeedInitial,
    PONG_CONFIG.ballSpeedIncrement, PONG_CONFIG.ballSpeedMax,
    PONG_CONFIG.countdownSeconds in *.

Ltac unfold_math :=
  unfold Math_max, Math_min, Math_abs, Math_cos, Math_sin in *.

(** ** Paddles *)

Lemma clampPaddleY_range (y0 : R) :
  0 <= clampPaddleY y0 <= PONG_CONFIG.height - PONG_CONFIG.paddleHeight.
Proof.
  unfold clampPaddleY; unfold_math; unfold_config.
  unfold Rmax, Rmin.
  destruct (Rle_dec (300 - 70) y0); destruct (Rle_dec 0 _); lra.
Qed.

Lemma clampPaddleY_id (y0 : R) :
  0 <= y0 <= PONG_CONFIG.height - PONG_CONFIG.paddleHeight ->
  clampPaddleY y0 = y0.
Proof.
  unfold clampPaddleY; unfold_math; unfold_config.
  unfold Rmax, Rmin; intros H.
  destruct (Rle_dec (300 - 70) y0); destruct (Rle_dec 0 _); lra.
Qed.

(** ** Walls *)

(** C4: [checkWallCollision] returns a [newY] in [[0, height - ballSize]]; at
    or above the top wall it returns [newY = 0] and [newVy = |vy| >= 0]; at or
    below the bottom wall it returns [newY = height - ballSize] and
    [newVy = -|vy| <= 0]; strictly inside it returns the ball's [y] and [vy]
    unchanged; and a ball with [y = -5], [vy = -3] yields
    [{collided: true, newY: 0, newVy: 3}]. *)
Theorem checkWallCollision_spec (b : Ball) :
  let r := checkWallCollision b in
  let bottom := PONG_CONFIG.height - PONG_CONFIG.ballSize in
  0 <= newY r <= bottom
  /\ ( (y b <= 0
        /\ r = {| collided := true; newY := 0; newVy := Rabs (vy b) |}
        /\ 0 <= newVy r)
     \/ (0 < y b /\ bottom <= y b
        /\ r = {| collided := true; newY := bottom; newVy := - Rabs (vy b) |}
        /\ newVy r <= 0)
     \/ (0 < y b < bottom
        /\ r = {| collided := false; newY := y b; newVy := vy b |}) )
  /\ (forall x0 vx0 speed0 : R,
        checkWallCollision {| x := x0; y := -5; vx := vx0; vy := -3; speed := speed0 |}
        = {| collided := true; newY := 0; newVy := 3 |}).
Proof.
  cbv zeta. split; [| split].
  - unfold checkWallCollision; unfold_config. cases_cmp; simpl; lra.
  - unfold checkWallCollision; unfold_math; unfold_config.
    pose proof (Rabs_pos (vy b)) as Hab.
    cases_cmp; simpl.
    + left. repeat split; lra.
    + right; left. repeat split; lra.
    + right; right. repeat split; lra.
  - intros x0 vx0 speed0.
    unfold checkWallCollision; unfold_math; simpl.
    decide_cmp. f_equal.
    rewrite Rabs_left by lra. lra.
Qed.

(** ** Paddle collisions *)

(** What a reported hit says about the incoming ball, and the ball it
    returns. *)
Lemma checkPaddleCollision_hit (b : Ball) (paddleX paddleY : R)
    (isLeftPaddle : bool) (nb : Ball) :
  checkPaddleCollision b paddleX paddleY isLeftPaddle = Some nb ->
  (if isLeftPaddle
   then paddleX <= x b <= paddleX + PONG_CONFIG.paddleWidth /\ vx b < 0
   else paddleX - PONG_CONFIG.ballSize <= x b <= paddleX /\ 0 < vx b)
  /\ paddleY <= y b + PONG_CONFIG.ballSize / 2 <= paddleY + PONG_CONFIG.paddleHeight
  /\ nb = let newSpeed :=
            Rmin PONG_CONFIG.ballSpeedMax (speed b + PONG_CONFIG.ballSpeedIncrement) in
          {| x := outerEdge paddleX isLeftPaddle;
             y := y b;
             vx := (if isLeftPaddle then newSpeed else - newSpeed)
                   * cos (hitAngle b paddleY);
             vy := newSpeed * sin (hitAngle b paddleY);
             speed := newSpeed |}.
Proof.
  unfold checkPaddleCollision, hitAngle, outerEdge; unfold_math.
  destruct isLeftPaddle; cases_cmp; simpl; intros H; try discriminate;
    injection H as <-; (split; [lra | split; [lra | reflexivity]]).
Qed.



Lemma velocity_norm (s a : R) :
  (s * cos a) * (s * cos a) + (s * sin a) * (s * sin a) = s * s.
Proof.
  pose proof (sin2_cos2 a) as H. unfold Rsqr in H. nra.
Qed.

(** C5: when the ball's horizontal velocity does not point toward the paddle
    ([vx >= 0] for the left paddle, [vx <= 0] for the right one),
    [checkPaddleCollision] reports no hit, whatever the positions. *)
Theorem checkPaddleCollision_moving_away (b : Ball) (paddleX paddleY : R)
    (isLeftPaddle : bool) :
  (if isLeftPaddle then 0 <= vx b else vx b <= 0) ->
  checkPaddleCollision b paddleX paddleY isLeftPaddle = None.
Proof.
  intros Hv.
  destruct (checkPaddleCollision b paddleX paddleY isLeftPaddle) as [nb |] eqn:E;
    [| reflexivity].
  apply checkPaddleCollision_hit in E. destruct E as (Hx & _ & _).
  destruct isLeftPaddle; lra.
Qed.

(** C2: on a hit, the returned speed is
    [min(ballSpeedMax, speed + ballSpeedIncrement)]; it is at most
    [ballSpeedMax], and at least the incoming speed when that is at most
    [ballSpeedMax]. *)
Theorem checkPaddleCollision_speed (b : Ball) (paddleX paddleY : R)
    (isLeftPaddle : bool) (nb : Ball) :
  checkPaddleCollision b paddleX paddleY isLeftPaddle = Some nb ->
  speed nb = Rmin PONG_CONFIG.ballSpeedMax (speed b + PONG_CONFIG.ballSpeedIncrement)
  /\ speed nb <= PONG_CONFIG.ballSpeedMax
  /\ (speed b <= PONG_CONFIG.ballSpeedMax -> speed b <= speed nb).
Proof.
  intros E. apply checkPaddleCollision_hit in E. destruct E as (_ & _ & ->).
  cbv zeta; simpl. unfold_config.
  split; [reflexivity |].
  unfold Rmin; destruct (Rle_dec _ _); lra.
Qed.



(** ** Trajectory prediction *)

Lemma foldGuard_false (y0 : R) (i : nat) :
  foldGuard y0 i = false -> (i < maxIterations)%nat -> inCourt y0.
Proof.
  unfold foldGuard, inCourt. intros H Hi.
  apply Nat.ltb_lt in Hi. rewrite Hi, andb_true_r in H.
  apply orb_false_elim in H. destruct H as [H1 H2].
  apply Rltb_false in H1. unfold Rgtb in H2. apply Rltb_false in H2. lra.
Qed.

Lemma foldGuard_true (y0 : R) (i : nat) :
  foldGuard y0 i = true -> (i < maxIterations)%nat /\ ~ inCourt y0.
Proof.
  unfold foldGuard, inCourt. intros H.
  apply andb_true_iff in H. destruct H as [H Hi].
  apply Nat.ltb_lt in Hi. split; [exact Hi |].
  apply orb_true_iff in H. unfold Rgtb in H.
  destruct H as [H | H]; apply Rltb_true in H; lra.
Qed.

Lemma foldGuard_out (y0 : R) (i : nat) :
  y0 < 0 \/ PONG_CONFIG.height - PONG_CONFIG.ballSize < y0 ->
  (i < maxIterations)%nat ->
  foldGuard y0 i = true.
Proof.
  intros Hy Hi. unfold foldGuard, Rgtb.
  apply Nat.ltb_lt in Hi. rewrite Hi, andb_true_r.
  apply orb_true_iff. destruct Hy as [Hy | Hy]; [left | right]; apply Rltb_true; exact Hy.
Qed.

Lemma foldGuard_in (y0 : R) (i : nat) :
  inCourt y0 -> foldGuard y0 i = false.
Proof.
  unfold inCourt, foldGuard, Rgtb. intros Hy.
  replace (Rltb y0 0) with false by (symmetry; apply Rltb_false; lra).
  replace (Rltb (PONG_CONFIG.height - PONG_CONFIG.ballSize) y0) with false
    by (symmetry; apply Rltb_false; lra).
  reflexivity.
Qed.

(** One pass of the loop, and its exit. *)
Lemma foldLoop_continue (fuel : nat) (y0 : R) (i : nat) :
  foldGuard y0 i = true ->
  foldLoop (S fuel) y0 i = foldLoop fuel (foldBody y0) (S i).
Proof. intros G. simpl. rewrite G. reflexivity. Qed.

Lemma foldLoop_stop (fuel : nat) (y0 : R) (i : nat) :
  foldGuard y0 i = false ->
  foldLoop fuel y0 i = Some (y0, i).
Proof. intros G. destruct fuel; simpl; rewrite G; reflexivity. Qed.

(** The body of the loop on a value above the top wall, and on a value so
    far above it that its mirror image is below the bottom wall. *)
Lemma foldBody_above (y0 : R) :
  y0 < 0 -> - y0 <= PONG_CONFIG.height - PONG_CONFIG.ballSize ->
  foldBody y0 = - y0.
Proof.
  intros H1 H2. unfold foldBody, Rgtb.
  replace (Rltb y0 0) with true by (symmetry; apply Rltb_true; lra).
  replace (Rltb _ (- y0)) with false by (symmetry; apply Rltb_false; lra).
  reflexivity.
Qed.

Lemma foldBody_far_above (y0 : R) :
  y0 < - (PONG_CONFIG.height - PONG_CONFIG.ballSize) ->
  foldBody y0 = y0 + 580.
Proof.
  intros H. unfold foldBody, Rgtb. unfold_config.
  replace (Rltb y0 0) with true by (symmetry; apply Rltb_true; lra).
  replace (Rltb _ (- y0)) with true by (symmetry; apply Rltb_true; lra).
  lra.
Qed.

(** [predictBallY] for a ball with [vx <> 0] and a target ahead of it. *)
Lemma predictBallY_ahead (b : Ball) (targetX : R) :
  vx b <> 0 ->
  0 <= (targetX - x b) / vx b ->
  predictBallY b targetX
  = match foldLoop maxIterations (y b + vy b * ((targetX - x b) / vx b)) 0 with
    | Some r => fst r
    | None => y b
    end.
Proof.
  intros Hvx Ht. unfold predictBallY, predictBallY_fuel.
  apply Reqb_false in Hvx. rewrite Hvx.
  replace (Rltb ((targetX - x b) / vx b) 0) with false
    by (symmetry; apply Rltb_false; exact Ht).
  destruct (foldLoop _ _ _); reflexivity.
Qed.

(** The loop started at pass [i] needs at most [maxIterations - i] passes of
    fuel; it runs the body [n] times, never counting beyond the cap, and a
    value it leaves before the cap is inside the court. *)
Lemma foldLoop_run (fuel : nat) :
  forall (y0 : R) (i : nat),
    (maxIterations - i <= fuel)%nat ->
    exists n : nat,
      foldLoop fuel y0 i = Some (Nat.iter n foldBody y0, (i + n)%nat)
      /\ (i + n <= Nat.max i maxIterations)%nat
      /\ ((i + n < maxIterations)%nat -> inCourt (Nat.iter n foldBody y0)).
Proof.
  induction fuel as [| fuel IH]; intros y0 i Hfuel.
  - exists O. simpl. destruct (foldGuard y0 i) eqn:G.
    + apply foldGuard_true in G. lia.
    + rewrite Nat.add_0_r. split; [reflexivity | split; [lia |]].
      intros Hi. eapply foldGuard_false; eauto.
  - simpl. destruct (foldGuard y0 i) eqn:G.
    + apply foldGuard_true in G. destruct G as [Hi _].
      destruct (IH (foldBody y0) (S i)) as (n & Hr & Hn & Hc); [lia |].
      exists (S n). rewrite Nat.iter_succ_r.
      replace (i + S n)%nat with (S i + n)%nat by lia.
      split; [exact Hr | split; [lia | exact Hc]].
    + exists O. rewrite Nat.add_0_r. split; [reflexivity | split; [lia |]].
      intros Hi. eapply foldGuard_false; eauto.
Qed.

(** The loop of [predictBallY] terminates on [maxIterations] passes of fuel,
    and more fuel does not change its result. *)
Lemma foldLoop_terminates (y0 : R) :
  exists n : nat,
    (n <= maxIterations)%nat
    /\ (forall fuel : nat, (maxIterations <= fuel)%nat ->
          foldLoop fuel y0 0 = Some (Nat.iter n foldBody y0, n))
    /\ ((n < maxIterations)%nat -> inCourt (Nat.iter n foldBody y0)).
Proof.
  destruct (foldLoop_run maxIterations y0 0) as (n & Hr & Hn & Hc); [lia |].
  simpl in Hr, Hn, Hc.
  exists n. split; [exact Hn | split; [| exact Hc]].
  intros fuel Hfuel.
  destruct (foldLoop_run fuel y0 0) as (n' & Hr' & Hn' & Hc'); [lia |].
  simpl in Hr', Hn', Hc'.
  assert (Hmono : forall k f z j r,
            foldLoop f z j = Some r -> foldLoop (k + f) z j = Some r).
  { intros k f. revert k. induction f as [| f IHf]; intros k z j r H.
    - simpl in H. destruct (foldGuard z j) eqn:G; [discriminate |].
      destruct (k + 0)%nat; simpl; rewrite G; exact H.
    - replace (k + S f)%nat with (S (k + f)) by lia.
      simpl in *. destruct (foldGuard z j); [apply IHf; exact H | exact H]. }
  replace fuel with ((fuel - maxIterations) + maxIterations)%nat by lia.
  apply Hmono. exact Hr.
Qed.


(** ** Serve *)

Lemma generateServeVelocity_seeded (s : R) (g : Generator) :
  generateServeVelocity (Some s) g = (serveFrom s s, g).
Proof. reflexivity. Qed.

Lemma generateServeVelocity_unseeded (g : Generator) :
  generateServeVelocity None g
  = (serveFrom (draws g (cursor g)) (draws g (S (cursor g))),
     mkGenerator (draws g) (S (S (cursor g)))).
Proof. reflexivity. Qed.

Lemma serveFrom_norm (r1 r2 : R) :
  let v := serveFrom r1 r2 in
  sqrt (serve_vx v * serve_vx v + serve_vy v * serve_vy v)
  = PONG_CONFIG.ballSpeedInitial.
Proof.
  cbv zeta. unfold serveFrom; simpl. unfold_config.
  set (a := r1 * (8 / 10) - 4 / 10).
  replace (_ + _) with (4 * 4).
  - apply sqrt_square; lra.
  - pose proof (velocity_norm 4 a). destruct (Rgtb r2 (5 / 10)); nra.
Qed.

Lemma serveFrom_vy_bound (r1 r2 : R) :
  0 <= r1 < 1 ->
  Rabs (serve_vy (serveFrom r1 r2)) <= PONG_CONFIG.ballSpeedInitial * sin (4 / 10).
Proof.
  intros Hr. unfold serveFrom; simpl. unfold_config.
  set (a := r1 * (8 / 10) - 4 / 10).
  assert (Ha : - (4 / 10) <= a <= 4 / 10) by (unfold a; lra).
  pose proof PI2_1 as Hpi.
  assert (Hup : sin a <= sin (4 / 10)) by (apply sin_incr_1; lra).
  assert (Hlo : sin (- (4 / 10)) <= sin a) by (apply sin_incr_1; lra).
  rewrite sin_neg in Hlo.
  apply Rabs_le. lra.
Qed.

(** C6: for every randomness source whose draws lie in [[0, 1)], the serve
    velocity has norm [sqrt (vx^2 + vy^2) = ballSpeedInitial] and
    [|vy| <= ballSpeedInitial * sin 0.4], hence also within any tolerance
    [eps >= 0] above that bound. *)
Theorem generateServeVelocity_spec (seed : option R) (g : Generator) :
  sourceInUnit seed g ->
  let v := fst (generateServeVelocity seed g) in
  sqrt (serve_vx v * serve_vx v + serve_vy v * serve_vy v)
  = PONG_CONFIG.ballSpeedInitial
  /\ Rabs (serve_vy v) <= PONG_CONFIG.ballSpeedInitial * sin (4 / 10)
  /\ (forall eps : R, 0 <= eps ->
        Rabs (serve_vy v) <= PONG_CONFIG.ballSpeedInitial * sin (4 / 10) + eps).
Proof.
  intros Hsrc.
  assert (H : exists r1 r2, fst (generateServeVelocity seed g) = serveFrom r1 r2
                            /\ 0 <= r1 < 1).
  { destruct seed as [s |].
    - exists s, s. rewrite generateServeVelocity_seeded. split; [reflexivity | exact Hsrc].
    - exists (draws g (cursor g)), (draws g (S (cursor g))).
      rewrite generateServeVelocity_unseeded. split; [reflexivity | apply Hsrc]. }
  destruct H as (r1 & r2 & -> & Hr1). cbv zeta.
  pose proof (serveFrom_vy_bound r1 r2 Hr1) as Hvy.
  split; [apply serveFrom_norm | split; [exact Hvy |]].
  intros eps Heps. lra.
Qed.

(** ** Where the randomness comes from *)

Lemma predictBallY_incomingBall :
  predictBallY incomingBall
    (PONG_CONFIG.width - PONG_CONFIG.paddleMargin - PONG_CONFIG.paddleWidth) = 100.
Proof.
  rewrite predictBallY_ahead by (unfold_config; simpl; lra).
  unfold incomingBall; unfold_config; cbn [x y vx vy].
  rewrite foldLoop_stop by (apply foldGuard_in; unfold inCourt; unfold_config; lra).
  cbn [fst]. lra.
Qed.

Lemma calculateAITarget_incoming (b : Ball) (currentAiY : R) (g : Generator) :
  0 < vx b ->
  calculateAITarget b currentAiY g
  = (predictBallY b (PONG_CONFIG.width - PONG_CONFIG.paddleMargin - PONG_CONFIG.paddleWidth)
     - PONG_CONFIG.paddleHeight / 2 + (nextDraw g - 5 / 10) * 30,
     mkGenerator (draws g) (S (cursor g))).
Proof.
  intros Hv. unfold calculateAITarget, Rgtb.
  apply Rltb_true in Hv. rewrite Hv. reflexivity.
Qed.

Lemma calculateAITarget_away (b : Ball) (currentAiY : R) (g : Generator) :
  vx b <= 0 ->
  calculateAITarget b currentAiY g
  = (PONG_CONFIG.height / 2 - PONG_CONFIG.paddleHeight / 2, g).
Proof.
  intros Hv. unfold calculateAITarget, Rgtb.
  apply Rltb_false in Hv. rewrite Hv. reflexivity.
Qed.

(** C7, as stated, fails on [calculateAITarget]: the target of a ball heading
    for the AI paddle differs between two runs on equal arguments when the
    global generator differs; the jitter is read from [Math.random], not from
    a parameter. *)
Lemma calculateAITarget_reads_global_generator :
  fst (calculateAITarget incomingBall 115 (constantGenerator 0)) = 50
  /\ fst (calculateAITarget incomingBall 115 (constantGenerator (5 / 10))) = 65
  /\ ~ generatorFree (calculateAITarget incomingBall 115).
Proof.
  assert (H0 : fst (calculateAITarget incomingBall 115 (constantGenerator 0)) = 50).
  { rewrite calculateAITarget_incoming by (simpl; lra).
    rewrite predictBallY_incomingBall. unfold nextDraw; simpl. unfold_config. lra. }
  assert (H1 : fst (calculateAITarget incomingBall 115 (constantGenerator (5 / 10))) = 65).
  { rewrite calculateAITarget_incoming by (simpl; lra).
    rewrite predictBallY_incomingBall. unfold nextDraw; simpl. unfold_config. lra. }
  split; [exact H0 | split; [exact H1 |]].
  intros Hfree.
  destruct (Hfree (constantGenerator 0) (constantGenerator (5 / 10))) as [Heq _].
  rewrite H0, H1 in Heq. lra.
Qed.

(** The horizontal direction of a serve is decided by the second draw. *)
Lemma serveFrom_direction (r1 r2 : R) :
  0 <= r1 < 1 ->
  (5 / 10 < r2 -> 0 < serve_vx (serveFrom r1 r2))
  /\ (r2 <= 5 / 10 -> serve_vx (serveFrom r1 r2) < 0).
Proof.
  intros Hr. unfold serveFrom; simpl. unfold_config.
  set (a := r1 * (8 / 10) - 4 / 10).
  pose proof PI2_1 as Hpi.
  assert (Hca : 0 < cos a) by (apply cos_gt_0; unfold a; lra).
  split; intros H2.
  - unfold Rgtb. rewrite (proj2 (Rltb_true _ _) H2). nra.
  - unfold Rgtb. rewrite (proj2 (Rltb_false _ _) H2). nra.
Qed.

(** C7 (amended): the Serve Generator takes its randomness from the seed
    passed to it, when one is passed: its result then depends on the seed
    alone and the global generator is neither read nor advanced.  Without a
    seed it consumes exactly two draws of the global generator; two runs
    whose two draws agree give the same velocity, and the velocity depends
    on the draws: for a first draw in [[0, 1)], [vx] is positive when the
    second draw exceeds [0.5] and negative otherwise.
    [calculateAITarget] has no randomness parameter.  Whenever the ball
    heads for the AI paddle ([0 < vx]) it consumes exactly one draw of the
    global generator; two runs on equal arguments return equal targets when
    that draw is the same; a larger draw never gives a smaller target, and
    when the predicted position is within the court a draw larger by at
    least [0.1] gives a strictly larger target.  When [vx <= 0] it neither
    reads nor advances the generator. *)
Theorem randomness_sources (seed : R) (b : Ball) (currentAiY : R)
    (g g' : Generator) :
  generatorFree (generateServeVelocity (Some seed))
  /\ (snd (generateServeVelocity None g)
      = mkGenerator (draws g) (S (S (cursor g)))
      /\ (nextDraw g = nextDraw g' ->
          draws g (S (cursor g)) = draws g' (S (cursor g')) ->
          fst (generateServeVelocity None g) = fst (generateServeVelocity None g'))
      /\ (0 <= nextDraw g < 1 ->
          (5 / 10 < draws g (S (cursor g)) ->
           0 < serve_vx (fst (generateServeVelocity None g)))
          /\ (draws g (S (cursor g)) <= 5 / 10 ->
              serve_vx (fst (generateServeVelocity None g)) < 0)))
  /\ (0 < vx b ->
      snd (calculateAITarget b currentAiY g)
      = mkGenerator (draws g) (S (cursor g))
      /\ (nextDraw g = nextDraw g' ->
          fst (calculateAITarget b currentAiY g)
          = fst (calculateAITarget b currentAiY g'))
      /\ (nextDraw g <= nextDraw g' ->
          fst (calculateAITarget b currentAiY g)
          <= fst (calculateAITarget b currentAiY g'))
      /\ (inCourt (predictBallY b (PONG_CONFIG.width - PONG_CONFIG.paddleMargin
                                   - PONG_CONFIG.paddleWidth)) ->
          nextDraw g + 1 / 10 <= nextDraw g' ->
          fst (calculateAITarget b currentAiY g)
          < fst (calculateAITarget b currentAiY g')))
  /\ (vx b <= 0 -> generatorFree (calculateAITarget b currentAiY)).
Proof.
  split; [| split; [| split]].
  - intros h1 h2. rewrite !generateServeVelocity_seeded. split; reflexivity.
  - rewrite !generateServeVelocity_unseeded. cbn [fst snd].
    split; [reflexivity | split].
    + intros Hfirst Hsecond. unfold nextDraw in Hfirst.
      rewrite Hfirst, Hsecond. reflexivity.
    + intros Hunit. apply serveFrom_direction. exact Hunit.
  - intros Hv. rewrite !calculateAITarget_incoming by exact Hv. cbn [fst snd].
    split; [reflexivity | split; [| split]].
    + intros Hnext. rewrite Hnext. reflexivity.
    + intros Hnext. lra.
    + intros _ Hnext. lra.
  - intros Hv h1 h2. rewrite !calculateAITarget_away by exact Hv.
    split; reflexivity.
Qed.

(** ** The match state machine *)

(** Advancing a state whose phase is Finished returns the same state and
    does not touch the global generator. *)
Lemma advance_finished (frameTimeScale : R -> R) (s : State) (elapsedTime : R)
    (inp : Input) (g : Generator) :
  phase s = finished ->
  advance frameTimeScale s elapsedTime inp g = (s, g).
Proof.
  intros Hph. unfold advance. rewrite Hph. reflexivity.
Qed.

Lemma advanceAll_finished (frameTimeScale : R -> R) (frames : list (R * Input)) :
  forall (s : State) (g : Generator),
    phase s = finished ->
    advanceAll frameTimeScale frames s g = (s, g).
Proof.
  induction frames as [| [elapsedTime inp] rest IH]; intros s g Hph.
  - reflexivity.
  - simpl. unfold bind. rewrite advance_finished by exact Hph.
    apply IH. exact Hph.
Qed.

(** C1: from a state whose phase is Finished, any number of [advance] calls,
    with any elapsed times and inputs, leaves the ball, the player paddle,
    the AI paddle and the score unchanged, and the phase Finished. *)
Theorem advance_finished_frozen (frameTimeScale : R -> R)
    (frames : list (R * Input)) (s : State) (g : Generator) :
  phase s = finished ->
  let s' := fst (advanceAll frameTimeScale frames s g) in
  ball s' = ball s
  /\ player s' = player s
  /\ ai s' = ai s
  /\ score s' = score s
  /\ phase s' = finished.
Proof.
  intros Hph. rewrite advanceAll_finished by exact Hph. simpl.
  repeat split. exact Hph.
Qed.

(** ** Concrete runs *)

Lemma checkPaddleCollision_hitBall :
  checkPaddleCollision hitBall playerPaddleX 100 true = Some reflectedBall.
Proof.
  unfold checkPaddleCollision, hitBall, reflectedBall, playerPaddleX;
    unfold_math; unfold_config; simpl.
  decide_cmp. simpl.
  replace ((130 + 10 / 2 - (100 + 70 / 2)) / (70 / 2) * (8 / 10)) with 0 by lra.
  rewrite cos_0, sin_0.
  replace (Rmin 8 (4 + 15 / 100)) with (83 / 20)
    by (unfold Rmin; destruct (Rle_dec _ _); lra).
  f_equal. f_equal; lra.
Qed.

Lemma matchPoint_finishes (g : Generator) :
  let s' := fst (advance (fun dt => dt) matchPoint 1 {| up := true; down := false |} g) in
  phase s' = finished
  /\ score s' = {| score_player := 5; score_ai := 3 |}
  /\ x (ball s') = 507.
Proof.
  cbv zeta.
  assert (H : exists s' : State,
            fst (advance (fun dt => dt) matchPoint 1 {| up := true; down := false |} g) = s'
            /\ phase s' = finished
            /\ score s' = {| score_player := 5; score_ai := 3 |}
            /\ x (ball s') = 507).
  { eexists. split.
    - change (advance (fun dt => dt) matchPoint 1 {| up := true; down := false |})
        with (updatePong (fun dt => dt) matchPoint 1 {| up := true; down := false |}).
      unfold updatePong, matchPoint.
      cbn [ball ai player score countdown ai_y player_y].
      unfold bind at 1.
      rewrite calculateAITarget_incoming by (simpl; lra).
      set (playerY := movePlayerPaddle _ _ _).
      set (aiY := moveAIPaddle _ _ _).
      set (w := checkWallCollision _).
      assert (Hw : w = {| collided := false; newY := 145; newVy := 0 |}).
      { unfold w, checkWallCollision, integrateBall; unfold_config; simpl.
        decide_cmp. f_equal; lra. }
      rewrite Hw. simpl.
      assert (Hpl : forall b0, x b0 = 499 + 8 * 1 ->
                checkPaddleCollision b0 playerPaddleX playerY true = None).
      { intros b0 Hx. unfold checkPaddleCollision, playerPaddleX; unfold_config.
        rewrite Hx. decide_cmp. reflexivity. }
      assert (Hai : forall b0, x b0 = 499 + 8 * 1 ->
                checkPaddleCollision b0 aiPaddleX aiY false = None).
      { intros b0 Hx. unfold checkPaddleCollision, aiPaddleX; unfold_config.
        rewrite Hx. decide_cmp. reflexivity. }
      rewrite Hpl by reflexivity.
      rewrite Hai by reflexivity.
      unfold checkScore; unfold_config; simpl.
      decide_cmp. simpl. reflexivity.
    - simpl. repeat split. lra. }
  destruct H as (s' & -> & H). exact H.
Qed.

(** A ball whose extrapolated position is one fold away from the court. *)
Lemma predictBallY_bouncingBall : predictBallY bouncingBall 200 = 50.
Proof.
  rewrite predictBallY_ahead by (simpl; lra).
  unfold bouncingBall; cbn [x y vx vy].
  replace (50 + -10 * ((200 - 100) / 10)) with (-50) by lra.
  unfold maxIterations.
  rewrite foldLoop_continue by (apply foldGuard_out; [left; lra | unfold maxIterations; lia]).
  rewrite foldBody_above by (unfold_config; lra).
  rewrite foldLoop_stop by (apply foldGuard_in; unfold inCourt; unfold_config; lra).
  cbn [fst]. lra.
Qed.

(** A ball so steep that the cap is reached: the tenth fold is returned,
    outside the court. *)
Lemma predictBallY_steepBall : predictBallY steepBall 1 = -4200.
Proof.
  rewrite predictBallY_ahead by (simpl; lra).
  unfold steepBall; cbn [x y vx vy].
  replace (0 + -10000 * ((1 - 0) / 1)) with (-10000) by lra.
  unfold maxIterations.
  assert (Hstep : forall fuel z z' i,
            z < -290 -> (i < 10)%nat -> z' = z + 580 ->
            foldLoop (S fuel) z i = foldLoop fuel z' (S i)).
  { intros fuel z z' i Hz Hi ->.
    rewrite foldLoop_continue by (apply foldGuard_out; [left; lra | exact Hi]).
    rewrite foldBody_far_above by (unfold_config; lra). reflexivity. }
  rewrite (Hstep _ _ (-9420)) by (lra || lia).
  rewrite (Hstep _ _ (-8840)) by (lra || lia).
  rewrite (Hstep _ _ (-8260)) by (lra || lia).
  rewrite (Hstep _ _ (-7680)) by (lra || lia).
  rewrite (Hstep _ _ (-7100)) by (lra || lia).
  rewrite (Hstep _ _ (-6520)) by (lra || lia).
  rewrite (Hstep _ _ (-5940)) by (lra || lia).
  rewrite (Hstep _ _ (-5360)) by (lra || lia).
  rewrite (Hstep _ _ (-4780)) by (lra || lia).
  rewrite (Hstep _ _ (-4200)) by (lra || lia).
  rewrite foldLoop_stop; [reflexivity |].
  unfold foldGuard. rewrite andb_false_r. reflexivity.
Qed.

Lemma movePlayerPaddle_up : movePlayerPaddle 100 {| up := true; down := false |} 1 = 94.
Proof.
  unfold movePlayerPaddle; simpl. rewrite clampPaddleY_id; unfold_config; lra.
Qed.

Lemma moveAIPaddle_dead_zone : moveAIPaddle 100 101 1 = 100.
Proof.
  unfold moveAIPaddle; unfold_math.
  replace (Rleb (Rabs (101 - 100)) 2) with true; [reflexivity |].
  symmetry; apply Rleb_true. rewrite Rabs_right; lra.
Qed.

Lemma moveAIPaddle_toward : moveAIPaddle 100 200 1 = 100 + 54 / 10.
Proof.
  unfold moveAIPaddle; unfold_math; unfold_config.
  replace (Rabs (200 - 100)) with 100 by (rewrite Rabs_right; lra).
  decide_cmp. unfold Math_sign. decide_cmp.
  replace (Rmin 100 (6 * (9 / 10) * 1)) with (54 / 10)
    by (unfold Rmin; destruct (Rle_dec _ _); lra).
  rewrite clampPaddleY_id; unfold_config; lra.
Qed.

Lemma checkWinner_examples :
  checkWinner {| score_player := 5; score_ai := 3 |} = Some side_player
  /\ checkWinner {| score_player := 2; score_ai := 5 |} = Some side_ai
  /\ checkWinner {| score_player := 4; score_ai := 4 |} = None.
Proof. repeat split. Qed.

Lemma clampPaddleY_examples :
  clampPaddleY (-10) = 0 /\ clampPaddleY 500 = 230 /\ clampPaddleY 50 = 50.
Proof.
  unfold clampPaddleY; unfold_math; unfold_config.
  repeat split.
  - rewrite Rmin_right by lra. apply Rmax_left; lra.
  - rewrite Rmin_left by lra. rewrite Rmax_right by lra. lra.
  - rewrite Rmin_right by lra. apply Rmax_right; lra.
Qed.

Lemma checkScore_examples :
  (forall b : Ball, x b = -5 -> checkScore b = Some side_ai)
  /\ (forall b : Ball, x b = PONG_CONFIG.width + 5 -> checkScore b = Some side_player)
  /\ (forall b : Ball, x b = 250 -> checkScore b = None).
Proof.
  repeat split; intros b Hx; unfold checkScore; rewrite Hx; unfold_config;
    decide_cmp; reflexivity.
Qed.

Lemma createInitialState_centered :
  phase createInitialState = countdown_phase
  /\ player_y (player createInitialState) = 115
  /\ ai_y (ai createInitialState) = 115
  /\ vx (ball createInitialState) = 0
  /\ vy (ball createInitialState) = 0.
Proof.
  unfold createInitialState; unfold_config; simpl.
  repeat split; lra.
Qed.

(** A hit on the AI paddle sends the ball back to the left. *)
Lemma checkPaddleCollision_aiPaddle :
  checkPaddleCollision {| x := 468; y := 130; vx := 5; vy := 0; speed := 4 |}
    aiPaddleX 100 false
  = Some {| x := 463; y := 130; vx := - (83 / 20); vy := 0; speed := 83 / 20 |}.
Proof.
  unfold checkPaddleCollision, aiPaddleX; unfold_math; unfold_config; simpl.
  decide_cmp. simpl.
  replace ((130 + 10 / 2 - (100 + 70 / 2)) / (70 / 2) * (8 / 10)) with 0 by lra.
  rewrite cos_0, sin_0.
  replace (Rmin 8 (4 + 15 / 100)) with (83 / 20)
    by (unfold Rmin; destruct (Rle_dec _ _); lra).
  f_equal. f_equal; lra.
Qed.

(** ** Instances of the theorems *)

Lemma advance_finished_frozen_witness :
  phase finalState = finished
  /\ (let s' := fst (advanceAll sixtyFps
                       [(16, {| up := true; down := false |});
                        (17, {| up := false; down := true |})]
                       finalState (constantGenerator (1 / 4))) in
      ball s' = ball finalState
      /\ player s' = player finalState
      /\ ai s' = ai finalState
      /\ score s' = score finalState
      /\ phase s' = finished).
Proof.
  split; [reflexivity |].
  apply (advance_finished_frozen sixtyFps
           [(16, {| up := true; down := false |});
            (17, {| up := false; down := true |})]
           finalState (constantGenerator (1 / 4))).
  reflexivity.
Defined.

Lemma checkPaddleCollision_speed_witness :
  checkPaddleCollision hitBall playerPaddleX 100 true = Some reflectedBall
  /\ speed hitBall <= PONG_CONFIG.ballSpeedMax
  /\ speed reflectedBall
     = Rmin PONG_CONFIG.ballSpeedMax (speed hitBall + PONG_CONFIG.ballSpeedIncrement)
  /\ speed reflectedBall <= PONG_CONFIG.ballSpeedMax
  /\ speed hitBall <= speed reflectedBall.
Proof.
  assert (Hmax : speed hitBall <= PONG_CONFIG.ballSpeedMax)
    by (unfold_config; simpl; lra).
  split; [exact checkPaddleCollision_hitBall | split; [exact Hmax |]].
  destruct (checkPaddleCollision_speed hitBall playerPaddleX 100 true reflectedBall
              checkPaddleCollision_hitBall) as (Hmin & Hle & Hge).
  split; [exact Hmin | split; [exact Hle | exact (Hge Hmax)]].
Defined.


Lemma checkPaddleCollision_moving_away_witness :
  0 <= vx awayBall
  /\ checkPaddleCollision awayBall playerPaddleX 100 true = None.
Proof.
  assert (Hv : 0 <= vx awayBall) by (simpl; lra).
  split; [exact Hv |].
  apply (checkPaddleCollision_moving_away awayBall playerPaddleX 100 true Hv).
Defined.

Lemma generateServeVelocity_spec_witness :
  sourceInUnit None (constantGenerator (1 / 4))
  /\ (let v := fst (generateServeVelocity None (constantGenerator (1 / 4))) in
      sqrt (serve_vx v * serve_vx v + serve_vy v * serve_vy v)
      = PONG_CONFIG.ballSpeedInitial
      /\ Rabs (serve_vy v) <= PONG_CONFIG.ballSpeedInitial * sin (4 / 10)
      /\ (forall eps : R, 0 <= eps ->
            Rabs (serve_vy v) <= PONG_CONFIG.ballSpeedInitial * sin (4 / 10) + eps)).
Proof.
  assert (Hsrc : sourceInUnit None (constantGenerator (1 / 4)))
    by (intros n; simpl; lra).
  split; [exact Hsrc |].
  apply (generateServeVelocity_spec None (constantGenerator (1 / 4)) Hsrc).
Defined.

Lemma randomness_sources_witness :
  generatorFree (generateServeVelocity (Some (1 / 4)))
  /\ (nextDraw (constantGenerator (1 / 4)) = nextDraw shiftedGenerator
      /\ draws (constantGenerator (1 / 4)) 1 = draws shiftedGenerator 2
      /\ snd (generateServeVelocity None (constantGenerator (1 / 4)))
         = mkGenerator (fun _ => 1 / 4) 2
      /\ fst (generateServeVelocity None (constantGenerator (1 / 4)))
         = fst (generateServeVelocity None shiftedGenerator)
      /\ serve_vx (fst (generateServeVelocity None (constantGenerator (1 / 4)))) < 0)
  /\ (0 < vx incomingBall
      /\ nextDraw (constantGenerator (1 / 4)) = nextDraw laterGenerator
      /\ snd (calculateAITarget incomingBall 115 (constantGenerator (1 / 4)))
         = mkGenerator (fun _ => 1 / 4) 1
      /\ fst (calculateAITarget incomingBall 115 (constantGenerator (1 / 4)))
         = fst (calculateAITarget incomingBall 115 laterGenerator))
  /\ (inCourt (predictBallY incomingBall
                 (PONG_CONFIG.width - PONG_CONFIG.paddleMargin
                  - PONG_CONFIG.paddleWidth))
      /\ nextDraw (constantGenerator (1 / 4)) + 1 / 10
         <= nextDraw (constantGenerator (3 / 4))
      /\ fst (calculateAITarget incomingBall 115 (constantGenerator (1 / 4)))
         < fst (calculateAITarget incomingBall 115 (constantGenerator (3 / 4))))
  /\ (vx hitBall <= 0 /\ generatorFree (calculateAITarget hitBall 115)).
Proof.
  assert (Hin : 0 < vx incomingBall) by (simpl; lra).
  assert (Hunit : 0 <= nextDraw (constantGenerator (1 / 4)) < 1)
    by (unfold nextDraw; simpl; lra).
  assert (Hcourt : inCourt (predictBallY incomingBall
                              (PONG_CONFIG.width - PONG_CONFIG.paddleMargin
                               - PONG_CONFIG.paddleWidth))).
  { rewrite predictBallY_incomingBall. unfold inCourt; unfold_config; lra. }
  assert (Hfar : nextDraw (constantGenerator (1 / 4)) + 1 / 10
                 <= nextDraw (constantGenerator (3 / 4)))
    by (unfold nextDraw; simpl; lra).
  assert (Haway : vx hitBall <= 0) by (simpl; lra).
  destruct (randomness_sources (1 / 4) incomingBall 115
              (constantGenerator (1 / 4)) shiftedGenerator)
    as (Hseed & (Hdrawn & Hsame & Hdir) & _ & _).
  destruct (randomness_sources (1 / 4) incomingBall 115
              (constantGenerator (1 / 4)) laterGenerator)
    as (_ & _ & Hai & _).
  destruct (Hai Hin) as (Hone & Heq & _ & _).
  destruct (randomness_sources (1 / 4) incomingBall 115
              (constantGenerator (1 / 4)) (constantGenerator (3 / 4)))
    as (_ & _ & Hai' & _).
  destruct (Hai' Hin) as (_ & _ & _ & Hstrict).
  destruct (randomness_sources (1 / 4) hitBall 115
              laterGenerator laterGenerator)
    as (_ & _ & _ & Hfree).
  split; [exact Hseed |].
  split.
  { split; [reflexivity | split; [reflexivity |]].
    split; [exact Hdrawn | split; [exact (Hsame eq_refl eq_refl) |]].
    apply (proj2 (Hdir Hunit)). simpl. lra. }
  split.
  { split; [exact Hin | split; [reflexivity |]].
    split; [exact Hone | exact (Heq eq_refl)]. }
  split.
  { split; [exact Hcourt | split; [exact Hfar | exact (Hstrict Hcourt Hfar)]]. }
  split; [exact Haway | exact (Hfree Haway)].
Defined.


(** ** Further properties of the engine *)

(** *** Paddles *)

(** The three cases of [clampPaddleY]. *)
Lemma clampPaddleY_cases (y0 : R) :
  (y0 <= 0 /\ clampPaddleY y0 = 0)
  \/ (0 <= y0 <= PONG_CONFIG.height - PONG_CONFIG.paddleHeight
      /\ clampPaddleY y0 = y0)
  \/ (PONG_CONFIG.height - PONG_CONFIG.paddleHeight <= y0
      /\ clampPaddleY y0 = PONG_CONFIG.height - PONG_CONFIG.paddleHeight).
Proof.
  unfold clampPaddleY; unfold_math; unfold_config.
  destruct (Rle_dec y0 0) as [Hlo | Hlo].
  - left. split; [exact Hlo |].
    rewrite Rmin_right by lra. apply Rmax_left; lra.
  - destruct (Rle_dec y0 (300 - 70)) as [Hhi | Hhi].
    + right; left. split; [lra |].
      rewrite Rmin_right by lra. apply Rmax_right; lra.
    + right; right. split; [lra |].
      rewrite Rmin_left by lra. apply Rmax_right; lra.
Qed.

(** X1: [clampPaddleY] is a projection onto [[0, height - paddleHeight]]: its
    result is in that interval, a position inside the interval is returned
    unchanged, clamping twice is clamping once, values at or beyond an end go
    to that end, and the order of two positions is kept. *)
Theorem clampPaddleY_projection (y1 y2 : R) :
  0 <= clampPaddleY y1 <= PONG_CONFIG.height - PONG_CONFIG.paddleHeight
  /\ (0 <= y1 <= PONG_CONFIG.height - PONG_CONFIG.paddleHeight ->
      clampPaddleY y1 = y1)
  /\ clampPaddleY (clampPaddleY y1) = clampPaddleY y1
  /\ (y1 <= 0 -> clampPaddleY y1 = 0)
  /\ (PONG_CONFIG.height - PONG_CONFIG.paddleHeight <= y1 ->
      clampPaddleY y1 = PONG_CONFIG.height - PONG_CONFIG.paddleHeight)
  /\ (y1 <= y2 -> clampPaddleY y1 <= clampPaddleY y2).
Proof.
  pose proof (clampPaddleY_range y1) as Hr.
  split; [exact Hr |].
  split; [apply clampPaddleY_id |].
  split; [apply clampPaddleY_id; exact Hr |].
  unfold clampPaddleY; unfold_math; unfold_config.
  unfold Rmax, Rmin.
  repeat split; intros H;
    destruct (Rle_dec (300 - 70) y1); destruct (Rle_dec (300 - 70) y2);
    repeat match goal with
           | |- context [Rle_dec 0 ?a] => destruct (Rle_dec 0 a)
           end; lra.
Qed.

(** X2: with one key pressed and a non-negative frame time scale, a paddle
    inside the court moves in the direction of the key, if it moves: up
    never increases [y], down never decreases it. *)
Theorem movePlayerPaddle_direction (currentY frameSpeed : R) :
  0 <= currentY <= PONG_CONFIG.height - PONG_CONFIG.paddleHeight ->
  0 <= frameSpeed ->
  movePlayerPaddle currentY {| up := true; down := false |} frameSpeed
    <= currentY
  /\ currentY
       <= movePlayerPaddle currentY {| up := false; down := true |} frameSpeed.
Proof.
  intros Hc Hf. unfold movePlayerPaddle; simpl. unfold_config.
  destruct (clampPaddleY_cases (currentY - 6 * frameSpeed))
    as [[H1 ->] | [[H1 ->] | [H1 ->]]];
    destruct (clampPaddleY_cases (currentY + 6 * frameSpeed))
      as [[H2 ->] | [[H2 ->] | [H2 ->]]];
    unfold_config; lra.
Qed.

(** *** AI paddle *)

(** X3: an AI paddle inside the court stays inside it, whatever the target
    and the frame time scale. *)
Theorem moveAIPaddle_in_range (currentY targetY0 frameSpeed : R) :
  0 <= currentY <= PONG_CONFIG.height - PONG_CONFIG.paddleHeight ->
  0 <= moveAIPaddle currentY targetY0 frameSpeed
    <= PONG_CONFIG.height - PONG_CONFIG.paddleHeight.
Proof.
  intros Hc. unfold moveAIPaddle. cbv zeta.
  destruct (Rleb _ 2); [exact Hc | apply clampPaddleY_range].
Qed.

(** The movement computed by [moveAIPaddle] has the sign of the distance
    left to the target. *)
Lemma aiMovement_sign (diff step : R) :
  0 <= step ->
  (0 <= diff -> 0 <= Math_sign diff * Rmin (Rabs diff) step)
  /\ (diff <= 0 -> Math_sign diff * Rmin (Rabs diff) step <= 0).
Proof.
  intros Hs.
  assert (Hmin : 0 <= Rmin (Rabs diff) step)
    by (apply Rmin_glb; [apply Rabs_pos | exact Hs]).
  unfold Math_sign. split; intros Hd; cases_cmp; lra.
Qed.

(** X4: an AI paddle inside the court never moves away from its target: with
    a non-negative frame time scale, a target with a greater or equal [y]
    never decreases the paddle's [y], and a target with a smaller or equal
    [y] never increases it. *)
Theorem moveAIPaddle_toward_target (currentY targetY0 frameSpeed : R) :
  0 <= currentY <= PONG_CONFIG.height - PONG_CONFIG.paddleHeight ->
  0 <= frameSpeed ->
  (currentY <= targetY0 ->
   currentY <= moveAIPaddle currentY targetY0 frameSpeed)
  /\ (targetY0 <= currentY ->
      moveAIPaddle currentY targetY0 frameSpeed <= currentY).
Proof.
  intros Hc Hf. unfold moveAIPaddle; unfold_math. cbv zeta.
  destruct (Rleb (Rabs (targetY0 - currentY)) 2); [split; intros _; lra |].
  destruct (aiMovement_sign (targetY0 - currentY)
              (PONG_CONFIG.paddleSpeed * (9 / 10) * frameSpeed))
    as [Hup Hdown]; [unfold_config; lra |].
  set (m := Math_sign _ * _) in *.
  split; intros Ht.
  - assert (Hm : 0 <= m) by (apply Hup; lra).
    destruct (clampPaddleY_cases (currentY + m))
      as [[H1 ->] | [[H1 ->] | [H1 ->]]]; unfold_config; lra.
  - assert (Hm : m <= 0) by (apply Hdown; lra).
    destruct (clampPaddleY_cases (currentY + m))
      as [[H1 ->] | [[H1 ->] | [H1 ->]]]; unfold_config; lra.
Qed.

(** *** Trajectory prediction *)

Lemma foldBody_in (y0 : R) : inCourt y0 -> foldBody y0 = y0.
Proof.
  unfold inCourt, foldBody, Rgtb. intros H.
  replace (Rltb y0 0) with false by (symmetry; apply Rltb_false; lra).
  replace (Rltb (PONG_CONFIG.height - PONG_CONFIG.ballSize) y0) with false
    by (symmetry; apply Rltb_false; lra).
  reflexivity.
Qed.

(** One pass of the loop moves a value above the top wall by one period
    toward the court, or mirrors it into the court. *)
Lemma foldBody_progress (n : nat) (y0 : R) :
  - (580 * INR (S n)) <= y0 <= 290 ->
  - (580 * INR n) <= foldBody y0 <= 290.
Proof.
  rewrite S_INR. pose proof (pos_INR n) as Hn. intros Hy.
  destruct (Rle_dec 0 y0) as [Hpos | Hneg].
  - rewrite foldBody_in by (unfold inCourt; unfold_config; lra). lra.
  - destruct (Rle_dec (- y0) 290) as [Hnear | Hfar].
    + rewrite foldBody_above by (unfold_config; lra). lra.
    + rewrite foldBody_far_above by (unfold_config; lra). lra.
Qed.

Lemma iter_foldBody_in_court (n : nat) :
  forall y0 : R,
    - (580 * INR n) <= y0 <= 290 -> inCourt (Nat.iter n foldBody y0).
Proof.
  induction n as [| n IH]; intros y0 Hy.
  - simpl in *. unfold inCourt; unfold_config. lra.
  - rewrite Nat.iter_succ_r. apply IH. apply foldBody_progress. exact Hy.
Qed.

Lemma foldBody_below (y0 : R) :
  PONG_CONFIG.height - PONG_CONFIG.ballSize < y0 ->
  foldBody y0 = 580 - y0.
Proof.
  intros H. unfold foldBody, Rgtb. unfold_config.
  replace (Rltb y0 0) with false by (symmetry; apply Rltb_false; lra).
  replace (Rltb (300 - 10) y0) with true by (symmetry; apply Rltb_true; lra).
  lra.
Qed.

(** X6: for a ball with [vx <> 0] and a target ahead of it, when the
    extrapolated [y] is within ten court heights of the court (between -5800
    and 5800) the cap of the loop is not felt: the prediction is inside the
    court; and when the extrapolated [y] is already inside the court it is
    returned as it is. *)
Theorem predictBallY_in_court (b : Ball) (targetX : R) :
  vx b <> 0 ->
  0 <= (targetX - x b) / vx b ->
  let rawY := y b + vy b * ((targetX - x b) / vx b) in
  -5800 <= rawY <= 5800 ->
  0 <= predictBallY b targetX <= PONG_CONFIG.height - PONG_CONFIG.ballSize
  /\ (0 <= rawY <= PONG_CONFIG.height - PONG_CONFIG.ballSize ->
      predictBallY b targetX = rawY).
Proof.
  intros Hvx Ht rawY Hraw.
  rewrite predictBallY_ahead by assumption. fold rawY.
  split.
  - destruct (foldLoop_terminates rawY) as (n & Hn & Hr & Hc).
    rewrite (Hr maxIterations) by lia. cbn [fst].
    destruct (Nat.eq_dec n maxIterations) as [-> | Hne];
      [| apply Hc; lia].
    unfold maxIterations.
    destruct (Rle_dec rawY 290) as [Hle | Hgt].
    + apply iter_foldBody_in_court. simpl. lra.
    + rewrite Nat.iter_succ_r. apply iter_foldBody_in_court.
      rewrite foldBody_below by (unfold_config; lra). simpl. lra.
  - intros Hin.
    rewrite foldLoop_stop by (apply foldGuard_in; exact Hin). reflexivity.
Qed.






(** *** AI target *)

(** X8: when the ball heads for the AI paddle and the next draw of the
    global generator is in [[0, 1)], the target is the prediction for the
    paddle's [x], lowered by half a paddle, with a jitter in [[-15, 15]], and
    one draw is consumed; when the ball does not head for the AI paddle the
    target is the centred position and no draw is consumed. *)
Theorem calculateAITarget_jitter (b : Ball) (currentAiY : R) (g : Generator) :
  0 <= nextDraw g < 1 ->
  let r := calculateAITarget b currentAiY g in
  let aimed := predictBallY b aiPaddleX - PONG_CONFIG.paddleHeight / 2 in
  (0 < vx b ->
   aimed - 15 <= fst r <= aimed + 15 /\ cursor (snd r) = S (cursor g))
  /\ (vx b <= 0 ->
      fst r = PONG_CONFIG.height / 2 - PONG_CONFIG.paddleHeight / 2
      /\ snd r = g).
Proof.
  intros Hd. cbv zeta. split; intros Hv.
  - rewrite calculateAITarget_incoming by exact Hv. simpl.
    unfold aiPaddleX. split; [lra | reflexivity].
  - rewrite calculateAITarget_away by exact Hv. simpl. split; reflexivity.
Qed.

(** *** Walls *)

(** X9: resolving a wall collision keeps the magnitude of the vertical
    velocity, reports a collision exactly when the ball is not strictly
    inside the court, and is stable: checking the resolved ball again gives
    the same position and velocity. *)
Theorem checkWallCollision_stable (b b' : Ball) :
  y b' = newY (checkWallCollision b) ->
  vy b' = newVy (checkWallCollision b) ->
  Rabs (newVy (checkWallCollision b)) = Rabs (vy b)
  /\ (collided (checkWallCollision b) = false
      <-> 0 < y b < PONG_CONFIG.height - PONG_CONFIG.ballSize)
  /\ newY (checkWallCollision b') = y b'
  /\ newVy (checkWallCollision b') = vy b'.
Proof.
  intros Hy Hvy.
  assert (Hb' : newY (checkWallCollision b') = y b'
                /\ newVy (checkWallCollision b') = vy b').
  { rewrite Hy, Hvy.
    unfold checkWallCollision at 1 3. rewrite Hy, Hvy.
    unfold checkWallCollision; unfold_math; unfold_config.
    pose proof (Rabs_pos (vy b)) as Hab.
    cases_cmp; simpl in *; try lra; split; try lra.
    - rewrite Rabs_pos_eq by lra. reflexivity.
    - rewrite Rabs_Ropp, Rabs_pos_eq by lra. reflexivity. }
  split; [| split; [| exact Hb']].
  - unfold checkWallCollision; unfold_math.
    cases_cmp; simpl.
    + apply Rabs_pos_eq, Rabs_pos.
    + rewrite Rabs_Ropp. apply Rabs_pos_eq, Rabs_pos.
    + reflexivity.
  - unfold checkWallCollision; unfold_config.
    cases_cmp; simpl; split; intros H; try discriminate; try lra; reflexivity.
Qed.

(** *** Paddle collisions *)

(** X10: [checkPaddleCollision] reports a hit exactly when the ball's [x] is
    within the paddle's span on its side (bounds included), the ball moves
    toward the paddle, and the ball's vertical centre is within the paddle's
    height (bounds included). *)
Theorem checkPaddleCollision_hit_iff (b : Ball) (paddleX paddleY : R)
    (isLeftPaddle : bool) :
  (exists nb : Ball, checkPaddleCollision b paddleX paddleY isLeftPaddle = Some nb)
  <-> (if isLeftPaddle
       then paddleX <= x b <= paddleX + PONG_CONFIG.paddleWidth /\ vx b < 0
       else paddleX - PONG_CONFIG.ballSize <= x b <= paddleX /\ 0 < vx b)
      /\ paddleY <= y b + PONG_CONFIG.ballSize / 2
         <= paddleY + PONG_CONFIG.paddleHeight.
Proof.
  split.
  - intros [nb E]. apply checkPaddleCollision_hit in E.
    destruct E as (Hx & Hy & _). split; assumption.
  - intros [Hx Hy]. unfold checkPaddleCollision.
    destruct isLeftPaddle; destruct Hx as [Hx Hv];
      decide_cmp; simpl; eexists; reflexivity.
Qed.





(** X13: at the paddle positions of the game (the player's paddle at
    [paddleMargin], the AI's at [width - paddleMargin - paddleWidth]) a ball
    that hits a paddle is in play, and so is the ball the hit returns:
    [checkScore] gives no point for either. *)
Theorem checkPaddleCollision_in_play (b : Ball) (paddleY : R)
    (isLeftPaddle : bool) (nb : Ball) :
  checkPaddleCollision b (if isLeftPaddle then playerPaddleX else aiPaddleX)
    paddleY isLeftPaddle = Some nb ->
  checkScore b = None /\ checkScore nb = None.
Proof.
  intros E. apply checkPaddleCollision_hit in E. destruct E as (Hx & _ & ->).
  unfold checkScore, outerEdge, playerPaddleX, aiPaddleX in *. cbv zeta.
  destruct isLeftPaddle; simpl; unfold_config; destruct Hx as [Hx _];
    decide_cmp; split; reflexivity.
Qed.

(** X14: no ball hits both paddles in one check, wherever the paddles are:
    the left paddle needs [vx < 0] and the right one [vx > 0]. *)
Theorem checkPaddleCollision_one_side (b : Ball)
    (leftX leftY rightX rightY : R) :
  checkPaddleCollision b leftX leftY true = None
  \/ checkPaddleCollision b rightX rightY false = None.
Proof.
  destruct (checkPaddleCollision b leftX leftY true) as [nl |] eqn:El;
    [| left; reflexivity].
  destruct (checkPaddleCollision b rightX rightY false) as [nr |] eqn:Er;
    [| right; reflexivity].
  apply checkPaddleCollision_hit in El, Er.
  destruct El as ((_ & Hl) & _). destruct Er as ((_ & Hr) & _). lra.
Qed.

(** *** Serve *)

(** X15: for every randomness source whose draws lie in [[0, 1)], the serve
    is never vertical: [|vx| >= ballSpeedInitial * cos 0.4 > 0]. *)
Theorem generateServeVelocity_horizontal (seed : option R) (g : Generator) :
  sourceInUnit seed g ->
  let v := fst (generateServeVelocity seed g) in
  0 < PONG_CONFIG.ballSpeedInitial * cos (4 / 10) <= Rabs (serve_vx v).
Proof.
  intros Hsrc.
  assert (H : exists r1 r2, fst (generateServeVelocity seed g) = serveFrom r1 r2
                            /\ 0 <= r1 < 1).
  { destruct seed as [s |].
    - exists s, s. rewrite generateServeVelocity_seeded. split; [reflexivity | exact Hsrc].
    - exists (draws g (cursor g)), (draws g (S (cursor g))).
      rewrite generateServeVelocity_unseeded. split; [reflexivity | apply Hsrc]. }
  destruct H as (r1 & r2 & -> & Hr1). cbv zeta.
  unfold serveFrom; simpl. unfold_config.
  set (a := r1 * (8 / 10) - 4 / 10).
  assert (Ha : - (4 / 10) <= a <= 4 / 10) by (unfold a; lra).
  pose proof PI2_1 as Hpi. pose proof PI_RGT_0 as Hpi0.
  assert (Hc4 : 0 < cos (4 / 10)) by (apply cos_gt_0; lra).
  assert (Hca : cos (4 / 10) <= cos a).
  { destruct (Rle_dec 0 a) as [Hpos | Hneg].
    - apply cos_decr_1; lra.
    - rewrite <- (cos_neg a). apply cos_decr_1; lra. }
  split; [lra |].
  rewrite !Rabs_mult, (Rabs_pos_eq (cos a)), (Rabs_pos_eq 4) by lra.
  assert (Hd : Rabs (if Rgtb r2 (5 / 10) then 1 else -1) = 1).
  { destruct (Rgtb r2 (5 / 10)); [apply Rabs_pos_eq; lra |].
    rewrite Rabs_left; lra. }
  rewrite Hd. lra.
Qed.

(** X16: with a seed in [[0, 1)] the direction and the angle of the serve
    are tied, because both draws are the seed: a seed above 0.5 serves to the
    right and downward ([vx > 0], [vy > 0]), a seed of at most 0.5 serves to
    the left and not downward ([vx < 0], [vy <= 0]); a seeded serve never
    goes right and up, nor left and down. *)
Theorem generateServeVelocity_seeded_coupling (s : R) (g : Generator) :
  0 <= s < 1 ->
  let v := fst (generateServeVelocity (Some s) g) in
  (5 / 10 < s -> 0 < serve_vx v /\ 0 < serve_vy v)
  /\ (s <= 5 / 10 -> serve_vx v < 0 /\ serve_vy v <= 0)
  /\ 0 <= serve_vx v * serve_vy v.
Proof.
  intros Hs. cbv zeta. rewrite generateServeVelocity_seeded.
  unfold serveFrom; simpl. unfold_config.
  set (a := s * (8 / 10) - 4 / 10).
  assert (Ha : - (4 / 10) <= a <= 4 / 10) by (unfold a; lra).
  pose proof PI2_1 as Hpi. pose proof PI_RGT_0 as Hpi0.
  assert (Hca : 0 < cos a) by (apply cos_gt_0; lra).
  assert (Hhi : 5 / 10 < s -> 0 < sin a).
  { intros H. apply sin_gt_0; unfold a; lra. }
  assert (Hlo : s <= 5 / 10 -> sin a <= 0).
  { intros H. destruct (Req_dec a 0) as [-> | Hne].
    - rewrite sin_0. lra.
    - left. apply sin_lt_0_var; unfold a in *; lra. }
  unfold Rgtb.
  destruct (Rltb (5 / 10) s) eqn:E;
    [apply Rltb_true in E | apply Rltb_false in E].
  - specialize (Hhi E). split; [intros _; split; nra |].
    split; [intros H; lra | nra].
  - specialize (Hlo E). split; [intros H; lra |].
    split; [intros _; split; nra | nra].
Qed.

(** *** Instances *)

Lemma movePlayerPaddle_direction_witness :
  0 <= 100 <= PONG_CONFIG.height - PONG_CONFIG.paddleHeight
  /\ 0 <= 1
  /\ movePlayerPaddle 100 {| up := true; down := false |} 1 <= 100
  /\ 100 <= movePlayerPaddle 100 {| up := false; down := true |} 1.
Proof.
  assert (Hc : 0 <= 100 <= PONG_CONFIG.height - PONG_CONFIG.paddleHeight)
    by (unfold_config; lra).
  assert (Hf : 0 <= 1) by lra.
  split; [exact Hc | split; [exact Hf |]].
  apply (movePlayerPaddle_direction 100 1 Hc Hf).
Defined.

Lemma moveAIPaddle_in_range_witness :
  0 <= 100 <= PONG_CONFIG.height - PONG_CONFIG.paddleHeight
  /\ 0 <= moveAIPaddle 100 500 1 <= PONG_CONFIG.height - PONG_CONFIG.paddleHeight.
Proof.
  assert (Hc : 0 <= 100 <= PONG_CONFIG.height - PONG_CONFIG.paddleHeight)
    by (unfold_config; lra).
  split; [exact Hc |].
  apply (moveAIPaddle_in_range 100 500 1 Hc).
Defined.

Lemma moveAIPaddle_toward_target_witness :
  0 <= 100 <= PONG_CONFIG.height - PONG_CONFIG.paddleHeight
  /\ 0 <= 1
  /\ 100 <= 200
  /\ 100 <= moveAIPaddle 100 200 1.
Proof.
  assert (Hc : 0 <= 100 <= PONG_CONFIG.height - PONG_CONFIG.paddleHeight)
    by (unfold_config; lra).
  assert (Hf : 0 <= 1) by lra.
  assert (Ht : 100 <= 200) by lra.
  split; [exact Hc | split; [exact Hf | split; [exact Ht |]]].
  apply (proj1 (moveAIPaddle_toward_target 100 200 1 Hc Hf) Ht).
Defined.

Lemma predictBallY_in_court_witness :
  vx bouncingBall <> 0
  /\ 0 <= (200 - x bouncingBall) / vx bouncingBall
  /\ -5800 <= y bouncingBall
               + vy bouncingBall * ((200 - x bouncingBall) / vx bouncingBall)
       <= 5800
  /\ 0 <= predictBallY bouncingBall 200 <= PONG_CONFIG.height - PONG_CONFIG.ballSize.
Proof.
  assert (Hvx : vx bouncingBall <> 0) by (simpl; lra).
  assert (Ht : 0 <= (200 - x bouncingBall) / vx bouncingBall) by (simpl; lra).
  assert (Hraw : -5800 <= y bouncingBall
                          + vy bouncingBall * ((200 - x bouncingBall) / vx bouncingBall)
                 <= 5800) by (simpl; lra).
  split; [exact Hvx | split; [exact Ht | split; [exact Hraw |]]].
  destruct (predictBallY_in_court bouncingBall 200 Hvx Ht Hraw) as [Hin _].
  exact Hin.
Defined.


Lemma calculateAITarget_jitter_witness :
  0 <= nextDraw (constantGenerator (1 / 4)) < 1
  /\ (let r := calculateAITarget incomingBall 115 (constantGenerator (1 / 4)) in
      let aimed := predictBallY incomingBall aiPaddleX - PONG_CONFIG.paddleHeight / 2 in
      aimed - 15 <= fst r <= aimed + 15
      /\ cursor (snd r) = S (cursor (constantGenerator (1 / 4)))).
Proof.
  assert (Hd : 0 <= nextDraw (constantGenerator (1 / 4)) < 1)
    by (unfold nextDraw; simpl; lra).
  split; [exact Hd |].
  destruct (calculateAITarget_jitter incomingBall 115 (constantGenerator (1 / 4)) Hd)
    as [Hin _].
  apply Hin. simpl. lra.
Defined.

Lemma checkWallCollision_topBall :
  checkWallCollision topBall = {| collided := true; newY := 0; newVy := 3 |}.
Proof.
  unfold checkWallCollision, topBall; unfold_math; simpl.
  decide_cmp. f_equal. rewrite Rabs_left by lra. lra.
Qed.

Lemma checkWallCollision_stable_witness :
  y resolvedTopBall = newY (checkWallCollision topBall)
  /\ vy resolvedTopBall = newVy (checkWallCollision topBall)
  /\ Rabs (newVy (checkWallCollision topBall)) = Rabs (vy topBall)
  /\ (collided (checkWallCollision topBall) = false
      <-> 0 < y topBall < PONG_CONFIG.height - PONG_CONFIG.ballSize)
  /\ newY (checkWallCollision resolvedTopBall) = y resolvedTopBall
  /\ newVy (checkWallCollision resolvedTopBall) = vy resolvedTopBall.
Proof.
  assert (Hy : y resolvedTopBall = newY (checkWallCollision topBall))
    by (rewrite checkWallCollision_topBall; reflexivity).
  assert (Hvy : vy resolvedTopBall = newVy (checkWallCollision topBall))
    by (rewrite checkWallCollision_topBall; reflexivity).
  split; [exact Hy | split; [exact Hvy |]].
  apply (checkWallCollision_stable topBall resolvedTopBall Hy Hvy).
Defined.



Lemma checkPaddleCollision_in_play_witness :
  checkPaddleCollision hitBall playerPaddleX 100 true = Some reflectedBall
  /\ checkScore hitBall = None /\ checkScore reflectedBall = None.
Proof.
  split; [exact checkPaddleCollision_hitBall |].
  apply (checkPaddleCollision_in_play hitBall 100 true reflectedBall
           checkPaddleCollision_hitBall).
Defined.

Lemma generateServeVelocity_horizontal_witness :
  sourceInUnit None (constantGenerator (1 / 4))
  /\ (let v := fst (generateServeVelocity None (constantGenerator (1 / 4))) in
      0 < PONG_CONFIG.ballSpeedInitial * cos (4 / 10) <= Rabs (serve_vx v)).
Proof.
  assert (Hsrc : sourceInUnit None (constantGenerator (1 / 4)))
    by (intros n; simpl; lra).
  split; [exact Hsrc |].
  apply (generateServeVelocity_horizontal None (constantGenerator (1 / 4)) Hsrc).
Defined.

Lemma generateServeVelocity_seeded_coupling_witness :
  0 <= 3 / 4 < 1
  /\ (let v := fst (generateServeVelocity (Some (3 / 4)) (constantGenerator 0)) in
      0 < serve_vx v /\ 0 < serve_vy v).
Proof.
  assert (Hs : 0 <= 3 / 4 < 1) by lra.
  split; [exact Hs |].
  destruct (generateServeVelocity_seeded_coupling (3 / 4) (constantGenerator 0) Hs)
    as [Hright _].
  apply Hright. lra.
Defined.

(** ** The paddle movers on binary64 numbers: properties *)

Module Binary64Facts.

Import Floats.
Import Binary64.
#[local] Open Scope float_scope.
#[local] Set Warnings "-inexact-float".

(** *** The order of binary64 numbers *)


Lemma Prim2SF_nan (a : float) : is_nan a = true -> Prim2SF a = S754_nan.
Proof. intros H. unfold Prim2SF. rewrite H. reflexivity. Qed.





(** A number that compares as at least another one is not [NaN]. *)
Lemma leb_not_nan (a b : float) : (a <=? b) = true -> is_nan b = false.
Proof.
  rewrite leb_spec. unfold SFleb. intros H.
  destruct (is_nan b) eqn:E; [| reflexivity].
  rewrite (Prim2SF_nan b E) in H. destruct (Prim2SF a); discriminate.
Qed.

(** *** Clamping *)

Lemma inRange_not_nan (y0 : float) : inRange y0 = true -> is_nan y0 = false.
Proof.
  unfold inRange. intros H. apply andb_true_iff in H. destruct H as [H _].
  exact (leb_not_nan _ _ H).
Qed.




(** *** Player paddle *)



(** *** AI paddle *)



(** *** Instances *)


End Binary64Facts.

(** ** Tip tracker *)

Module TipTrackerFacts.

Import Strings.String.
Import TipTracker.

(** *** Coordinates *)

Lemma indexOfFrom_found (labels : list string) :
  forall (i : Z) (s : string),
    indexOfFrom i labels s = (-1)%Z
    \/ ((i <= indexOfFrom i labels s < i + Z.of_nat (List.length labels))%Z
        /\ nth (Z.to_nat (indexOfFrom i labels s - i)) labels EmptyString = s).
Proof.
  induction labels as [| l rest IH]; intros i s; simpl.
  - left. reflexivity.
  - destruct (String.eqb l s) eqn:E.
    + right. apply String.eqb_eq in E. subst l.
      replace (i - i)%Z with 0%Z by lia. simpl. split; [lia | reflexivity].
    + destruct (IH (i + 1)%Z s) as [Hnone | [Hrange Hnth]];
        [left; exact Hnone | right].
      split; [lia |].
      replace (Z.to_nat (indexOfFrom (i + 1) rest s - i))
        with (S (Z.to_nat (indexOfFrom (i + 1) rest s - (i + 1)))) by lia.
      exact Hnth.
Qed.

Lemma indexOf_found (labels : list string) (s : string) :
  indexOf labels s <> (-1)%Z ->
  (0 <= indexOf labels s < Z.of_nat (List.length labels))%Z
  /\ label labels (indexOf labels s) = s.
Proof.
  intros Hne. unfold indexOf, label in *.
  destruct (indexOfFrom_found labels 0%Z s) as [H | [Hr Hn]]; [contradiction |].
  rewrite Z.sub_0_r in Hn. split; [lia | exact Hn].
Qed.

Lemma indexOfFrom_nth (labels : list string) :
  forall (i : Z) (n : nat),
    NoDup labels -> (n < List.length labels)%nat ->
    indexOfFrom i labels (nth n labels EmptyString) = (i + Z.of_nat n)%Z.
Proof.
  induction labels as [| l rest IH]; intros i n Hnd Hn; simpl in *; [lia |].
  inversion Hnd as [| ? ? Hnotin Hnd']; subst.
  destruct n as [| n].
  - rewrite String.eqb_refl. lia.
  - assert (Hin : In (nth n rest EmptyString) rest) by (apply nth_In; lia).
    destruct (String.eqb l (nth n rest EmptyString)) eqn:E.
    + apply String.eqb_eq in E. subst l. contradiction.
    + rewrite IH by (assumption || lia). lia.
Qed.

Lemma indexOf_label (labels : list string) (i : Z) :
  NoDup labels -> (0 <= i < Z.of_nat (List.length labels))%Z ->
  indexOf labels (label labels i) = i.
Proof.
  intros Hnd Hi. unfold indexOf, label.
  rewrite indexOfFrom_nth by (assumption || lia). lia.
Qed.

Lemma NoDup_labels :
  NoDup tip10_rowLabels /\ NoDup tip10_colLabels
  /\ NoDup tip100_colLabels /\ NoDup tip100_rowLabels.
Proof.
  repeat split;
    repeat (constructor; [simpl; intuition discriminate |]); constructor.
Qed.

(** Every letter label is one character, every number label is not empty. *)
Lemma letter_label (l : string) :
  In l tip100_colLabels -> exists c, l = String c EmptyString.
Proof.
  simpl. intros H.
  repeat (destruct H as [<- | H]; [eexists; reflexivity |]). contradiction.
Qed.

Lemma tip10_rows_are_letters (l : string) :
  In l tip10_rowLabels -> In l tip100_colLabels.
Proof. simpl. intuition. Qed.

Lemma number_label (l : string) :
  In l tip10_colLabels \/ In l tip100_rowLabels -> (1 <= String.length l)%nat.
Proof.
  simpl. intros [H | H];
    repeat (destruct H as [<- | H]; [simpl; lia |]); contradiction.
Qed.

Lemma label_In (labels : list string) (i : Z) :
  (0 <= i < Z.of_nat (List.length labels))%Z -> In (label labels i) labels.
Proof. intros Hi. unfold label. apply nth_In. lia. Qed.

Lemma parse_letter_number (toUpperCase : string -> string) (c : Ascii.ascii)
    (number : string) :
  (1 <= String.length number)%nat ->
  ((String.length (String c EmptyString ++ number) =? 0)%nat
   || (String.length (String c EmptyString ++ number) <? 2)%nat) = false
  /\ charAt0 (String c EmptyString ++ number) = String c EmptyString
  /\ slice1 (String c EmptyString ++ number) = number.
Proof.
  intros Hn. simpl. split; [| split; reflexivity].
  destruct (String.length number) as [| n]; [lia | reflexivity].
Qed.

(** X17: every coordinate that [gridPositionToCoord] produces parses back to
    the grid position it came from, for both tip sizes, provided
    [toUpperCase] leaves the capital letters A to L as they are. *)
Theorem grid_coord_round_trip (toUpperCase : string -> string)
    (r c size : Z) (s : string) :
  (forall l : string, In l tip100_colLabels -> toUpperCase l = l) ->
  gridPositionToCoord r c size = Some s ->
  parseCoordToGridPosition toUpperCase s size = Some {| row := r; col := c |}.
Proof.
  intros Hup. unfold gridPositionToCoord, rows, cols.
  destruct ((r <? 0)%Z || (r >=? 8)%Z || (c <? 0)%Z || (c >=? 12)%Z) eqn:Eb;
    [discriminate |].
  assert (Hr : (0 <= r < 8)%Z /\ (0 <= c < 12)%Z).
  { repeat (apply orb_false_elim in Eb; destruct Eb as [Eb ?]). lia. }
  destruct Hr as [Hr Hc].
  destruct NoDup_labels as (N10r & N10c & N100c & N100r).
  unfold parseCoordToGridPosition.
  destruct (size =? 10)%Z eqn:E10; [| destruct (size =? 100)%Z eqn:E100].
  - intros H; injection H as <-.
    assert (Hl : In (label tip10_rowLabels r) tip10_rowLabels)
      by (apply label_In; simpl; lia).
    assert (Hn : In (label tip10_colLabels c) tip10_colLabels)
      by (apply label_In; simpl; lia).
    destruct (letter_label _ (tip10_rows_are_letters _ Hl)) as [ch Hch].
    pose proof (number_label _ (or_introl Hn)) as Hlen.
    rewrite Hch.
    destruct (parse_letter_number toUpperCase ch _ Hlen) as (-> & -> & ->).
    rewrite <- Hch, (Hup _ (tip10_rows_are_letters _ Hl)).
    rewrite !indexOf_label by (assumption || simpl; lia).
    replace ((r =? -1)%Z || (c =? -1)%Z) with false; [reflexivity |].
    symmetry. apply orb_false_intro; apply Z.eqb_neq; lia.
  - intros H; injection H as <-.
    assert (Hl : In (label tip100_colLabels c) tip100_colLabels)
      by (apply label_In; simpl; lia).
    assert (Hn : In (label tip100_rowLabels r) tip100_rowLabels)
      by (apply label_In; simpl; lia).
    destruct (letter_label _ Hl) as [ch Hch].
    pose proof (number_label _ (or_intror Hn)) as Hlen.
    rewrite Hch.
    destruct (parse_letter_number toUpperCase ch _ Hlen) as (-> & -> & ->).
    rewrite <- Hch, (Hup _ Hl).
    rewrite !indexOf_label by (assumption || simpl; lia).
    replace ((r =? -1)%Z || (c =? -1)%Z) with false; [reflexivity |].
    symmetry. apply orb_false_intro; apply Z.eqb_neq; lia.
  - discriminate.
Qed.

(** X18: a coordinate that parses has at least two characters and a tip size
    of 10 or 100; the position is inside the 8 by 12 grid; and
    [gridPositionToCoord] maps it back to the coordinate with its first
    character upper-cased. *)
Theorem parse_coord_sound (toUpperCase : string -> string)
    (s : string) (size : Z) (p : GridPosition) :
  parseCoordToGridPosition toUpperCase s size = Some p ->
  (2 <= String.length s)%nat
  /\ (size = 10 \/ size = 100)%Z
  /\ (0 <= row p < rows)%Z /\ (0 <= col p < cols)%Z
  /\ gridPositionToCoord (row p) (col p) size
     = Some (toUpperCase (charAt0 s) ++ slice1 s)%string.
Proof.
  unfold parseCoordToGridPosition.
  destruct ((String.length s =? 0)%nat || (String.length s <? 2)%nat) eqn:El;
    [discriminate |].
  apply orb_false_elim in El. destruct El as [_ El]. apply Nat.ltb_ge in El.
  assert (Hgrid : forall (rl cl : list string) (ri ci : Z),
            List.length rl = 8%nat -> List.length cl = 12%nat ->
            ((ri =? -1)%Z || (ci =? -1)%Z) = false ->
            (ri = -1 \/ 0 <= ri < Z.of_nat (List.length rl))%Z ->
            (ci = -1 \/ 0 <= ci < Z.of_nat (List.length cl))%Z ->
            ((ri <? 0)%Z || (ri >=? rows)%Z || (ci <? 0)%Z || (ci >=? cols)%Z) = false
            /\ (0 <= ri < rows)%Z /\ (0 <= ci < cols)%Z).
  { intros rl cl ri ci Hrl Hcl Hne Hri Hci.
    apply orb_false_elim in Hne. destruct Hne as [Hn1 Hn2].
    apply Z.eqb_neq in Hn1, Hn2. rewrite Hrl in Hri. rewrite Hcl in Hci.
    unfold rows, cols.
    assert (Hr : (0 <= ri < 8)%Z) by lia.
    assert (Hc : (0 <= ci < 12)%Z) by lia.
    split; [| split; assumption].
    repeat (apply orb_false_intro); lia. }
  destruct (size =? 10)%Z eqn:E10; [| destruct (size =? 100)%Z eqn:E100].
  - apply Z.eqb_eq in E10. subst size.
    set (ri := indexOf tip10_rowLabels _). set (ci := indexOf tip10_colLabels _).
    destruct ((ri =? -1)%Z || (ci =? -1)%Z) eqn:Ene; [discriminate |].
    intros H; injection H as <-. simpl row; simpl col.
    pose proof Ene as Ene'.
    apply orb_false_elim in Ene'. destruct Ene' as [Hn1 Hn2].
    apply Z.eqb_neq in Hn1, Hn2.
    destruct (indexOf_found _ _ Hn1) as [Hr1 Hl1].
    destruct (indexOf_found _ _ Hn2) as [Hr2 Hl2].
    destruct (Hgrid tip10_rowLabels tip10_colLabels ri ci eq_refl eq_refl Ene)
      as (Hb & Hrow & Hcol); [right; exact Hr1 | right; exact Hr2 |].
    split; [exact El | split; [left; reflexivity | split; [exact Hrow | split; [exact Hcol |]]]].
    unfold gridPositionToCoord. rewrite Hb. simpl (10 =? 10)%Z. cbv iota.
    fold ri ci in Hl1, Hl2. rewrite Hl1, Hl2. reflexivity.
  - apply Z.eqb_eq in E100. subst size.
    set (ci := indexOf tip100_colLabels _). set (ri := indexOf tip100_rowLabels _).
    destruct ((ri =? -1)%Z || (ci =? -1)%Z) eqn:Ene; [discriminate |].
    intros H; injection H as <-. simpl row; simpl col.
    pose proof Ene as Ene'.
    apply orb_false_elim in Ene'. destruct Ene' as [Hn1 Hn2].
    apply Z.eqb_neq in Hn1, Hn2.
    destruct (indexOf_found _ _ Hn1) as [Hr1 Hl1].
    destruct (indexOf_found _ _ Hn2) as [Hr2 Hl2].
    destruct (Hgrid tip100_rowLabels tip100_colLabels ri ci eq_refl eq_refl Ene)
      as (Hb & Hrow & Hcol); [right; exact Hr1 | right; exact Hr2 |].
    split; [exact El | split; [right; reflexivity | split; [exact Hrow | split; [exact Hcol |]]]].
    unfold gridPositionToCoord. rewrite Hb. simpl (100 =? 10)%Z. simpl (100 =? 100)%Z.
    cbv iota.
    fold ri ci in Hl1, Hl2. rewrite Hl1, Hl2. reflexivity.
  - discriminate.
Qed.

(** *** Catalogue *)

Lemma sameSlot_true (c : string) (size : Z) (t : Tip) :
  sameSlot c size t = true <-> coord t = c /\ tipSize t = size.
Proof.
  unfold sameSlot. rewrite andb_true_iff, String.eqb_eq, Z.eqb_eq. reflexivity.
Qed.

Lemma sameSlot_other (c c' : string) (size size' : Z) (t : Tip) :
  (c', size') <> (c, size) ->
  sameSlot c' size' t = true -> sameSlot c size t = false.
Proof.
  intros Hne H'. apply sameSlot_true in H'. destruct H' as [Hc' Hs'].
  destruct (sameSlot c size t) eqn:E; [| reflexivity].
  apply sameSlot_true in E. destruct E as [Hc Hs]. congruence.
Qed.

Lemma find_app {A : Type} (f : A -> bool) (l1 l2 : list A) :
  find f (l1 ++ l2)
  = match find f l1 with Some a => Some a | None => find f l2 end.
Proof.
  induction l1 as [| a l1 IH]; simpl; [reflexivity |].
  destruct (f a); [reflexivity | exact IH].
Qed.

Lemma find_deleted (c : string) (size : Z) (l : list Tip) :
  find (sameSlot c size) (filter (fun t => negb (sameSlot c size t)) l) = None.
Proof.
  induction l as [| t l IH]; simpl; [reflexivity |].
  destruct (sameSlot c size t) eqn:E; simpl; [exact IH |].
  rewrite E. exact IH.
Qed.

Lemma find_other (c c' : string) (size size' : Z) (l : list Tip) :
  (c', size') <> (c, size) ->
  find (sameSlot c' size') (filter (fun t => negb (sameSlot c size t)) l)
  = find (sameSlot c' size') l.
Proof.
  intros Hne. induction l as [| t l IH]; simpl; [reflexivity |].
  destruct (sameSlot c' size' t) eqn:E'.
  - rewrite (sameSlot_other _ _ _ _ _ Hne E'). simpl. rewrite E'. reflexivity.
  - destruct (sameSlot c size t); simpl; [exact IH |].
    rewrite E'. exact IH.
Qed.

Lemma filter_absent (c : string) (size : Z) (l : list Tip) :
  find (sameSlot c size) l = None ->
  filter (fun t => negb (sameSlot c size t)) l = l.
Proof.
  induction l as [| t l IH]; simpl; [reflexivity |].
  destruct (sameSlot c size t) eqn:E; [discriminate |].
  intros H. simpl. rewrite IH by exact H. reflexivity.
Qed.

Lemma find_last_other (c' : string) (size' : Z) (t : Tip) :
  (c', size') <> (coord t, tipSize t) ->
  find (sameSlot c' size') [t] = None.
Proof.
  intros Hne. simpl. destruct (sameSlot c' size' t) eqn:E; [| reflexivity].
  apply sameSlot_true in E. destruct E as [Hc Hs]. congruence.
Qed.

Lemma find_last_same (t : Tip) :
  find (sameSlot (coord t) (tipSize t)) [t] = Some t.
Proof.
  simpl. replace (sameSlot (coord t) (tipSize t) t) with true; [reflexivity |].
  symmetry. apply sameSlot_true. split; reflexivity.
Qed.

(** X19: [addTip] fails only when the slot is taken and [replace] is off,
    and then returns the catalogue unchanged; when it succeeds, looking up
    the new tip's slot gives the new tip and [replaced] is the tip that was
    there before; in both cases every other slot looks up as before. *)
Theorem addTip_lookup (tips0 : list Tip) (newTip : Tip) (replace : bool) :
  let r := addTip tips0 newTip replace in
  let before := findExistingTip tips0 (coord newTip) (tipSize newTip) in
  ((error r = None
    /\ (before = None \/ replace = true)
    /\ findExistingTip (tips r) (coord newTip) (tipSize newTip) = Some newTip
    /\ replaced r = before)
   \/ (error r <> None
       /\ before <> None /\ replace = false
       /\ tips r = tips0 /\ replaced r = None))
  /\ (forall (c : string) (size : Z),
        (c, size) <> (coord newTip, tipSize newTip) ->
        findExistingTip (tips r) c size = findExistingTip tips0 c size).
Proof.
  cbv zeta. unfold addTip, findExistingTip.
  destruct (find (sameSlot (coord newTip) (tipSize newTip)) tips0) as [old |] eqn:Ef;
    destruct replace; simpl.
  - split.
    + left. rewrite find_app, find_deleted, find_last_same.
      repeat split; try reflexivity. right; reflexivity.
    + intros c size Hne.
      rewrite find_app, find_other, (find_last_other _ _ _ Hne) by exact Hne.
      destruct (find (sameSlot c size) tips0); reflexivity.
  - split.
    + right. repeat split; try reflexivity; discriminate.
    + intros c size Hne. reflexivity.
  - split.
    + left. rewrite find_app, Ef, find_last_same.
      repeat split; try reflexivity. left; reflexivity.
    + intros c size Hne. rewrite find_app, (find_last_other _ _ _ Hne).
      destruct (find (sameSlot c size) tips0); reflexivity.
  - split.
    + left. rewrite find_app, Ef, find_last_same.
      repeat split; try reflexivity. left; reflexivity.
    + intros c size Hne. rewrite find_app, (find_last_other _ _ _ Hne).
      destruct (find (sameSlot c size) tips0); reflexivity.
Qed.

Lemma slot_not_in_deleted (c : string) (size : Z) (l : list Tip) :
  ~ In (c, size)
      (map (fun t => (coord t, tipSize t))
           (filter (fun t => negb (sameSlot c size t)) l)).
Proof.
  intros Hin. apply in_map_iff in Hin. destruct Hin as (t & Hk & Ht).
  apply filter_In in Ht. destruct Ht as [_ Hneg].
  injection Hk as Hc Hs.
  assert (E : sameSlot c size t = true) by (apply sameSlot_true; split; assumption).
  rewrite E in Hneg. discriminate.
Qed.

Lemma slot_not_in_absent (c : string) (size : Z) (l : list Tip) :
  find (sameSlot c size) l = None ->
  ~ In (c, size) (map (fun t => (coord t, tipSize t)) l).
Proof.
  intros Hf. rewrite <- (filter_absent c size l Hf). apply slot_not_in_deleted.
Qed.

Lemma uniqueSlots_filter (f : Tip -> bool) (l : list Tip) :
  uniqueSlots l -> uniqueSlots (filter f l).
Proof.
  unfold uniqueSlots. induction l as [| t l IH]; simpl; intros Hnd; [constructor |].
  inversion Hnd as [| ? ? Hnotin Hnd']; subst.
  destruct (f t); simpl; [constructor |]; try (apply IH; exact Hnd').
  intros Hin. apply Hnotin.
  apply in_map_iff in Hin. destruct Hin as (u & Hk & Hu).
  apply filter_In in Hu. destruct Hu as [Hu _].
  apply in_map_iff. exists u. split; assumption.
Qed.

Lemma uniqueSlots_snoc (l : list Tip) (t : Tip) :
  uniqueSlots l ->
  ~ In (coord t, tipSize t) (map (fun u => (coord u, tipSize u)) l) ->
  uniqueSlots (l ++ [t]).
Proof.
  unfold uniqueSlots. intros Hnd Hnotin. rewrite map_app. simpl.
  apply NoDup_app; [exact Hnd | repeat constructor; simpl; tauto |].
  intros a Ha [<- | []]. contradiction.
Qed.

Lemma delete_one (c : string) (size : Z) (l : list Tip) (old : Tip) :
  uniqueSlots l ->
  find (sameSlot c size) l = Some old ->
  S (List.length (filter (fun t => negb (sameSlot c size t)) l)) = List.length l.
Proof.
  unfold uniqueSlots. induction l as [| t l IH]; simpl; intros Hnd Hf; [discriminate |].
  inversion Hnd as [| ? ? Hnotin Hnd']; subst.
  destruct (sameSlot c size t) eqn:E; simpl.
  - f_equal. f_equal. apply filter_absent.
    destruct (find (sameSlot c size) l) as [u |] eqn:Eu; [| reflexivity].
    exfalso. apply Hnotin. apply find_some in Eu. destruct Eu as [Hu Hs].
    apply sameSlot_true in E, Hs. destruct E as [Ec Es]. destruct Hs as [Hc Hs].
    apply in_map_iff. exists u. split; [congruence | exact Hu].
  - f_equal. apply IH; assumption.
Qed.

(** X20: [addTip] keeps the catalogue free of duplicate slots: if no two
    tips share a coordinate and a tip size before, none do after; and the
    catalogue grows by one tip exactly when the slot was free, a replacement
    and a refusal keeping its size. *)
Theorem addTip_unique (tips0 : list Tip) (newTip : Tip) (replace : bool) :
  uniqueSlots tips0 ->
  let r := addTip tips0 newTip replace in
  uniqueSlots (tips r)
  /\ List.length (tips r)
     = (if isSome (findExistingTip tips0 (coord newTip) (tipSize newTip))
        then List.length tips0 else S (List.length tips0)).
Proof.
  intros Hu. cbv zeta. unfold addTip, findExistingTip.
  destruct (find (sameSlot (coord newTip) (tipSize newTip)) tips0) as [old |] eqn:Ef;
    destruct replace; simpl.
  - split.
    + apply uniqueSlots_snoc; [apply uniqueSlots_filter; exact Hu |].
      apply slot_not_in_deleted.
    + rewrite length_app. simpl. rewrite Nat.add_1_r.
      eapply delete_one; eassumption.
  - split; [exact Hu | reflexivity].
  - split.
    + apply uniqueSlots_snoc; [exact Hu | apply slot_not_in_absent; exact Ef].
    + rewrite length_app. simpl. lia.
  - split.
    + apply uniqueSlots_snoc; [exact Hu | apply slot_not_in_absent; exact Ef].
    + rewrite length_app. simpl. lia.
Qed.

(** X21: after [deleteTip] the slot is free and every other slot looks up as
    before; deleting from a free slot returns the same catalogue; a
    catalogue without duplicate slots stays so and loses exactly one tip when
    the slot was taken. *)
Theorem deleteTip_lookup (tips0 : list Tip) (c : string) (size : Z) :
  findExistingTip (deleteTip tips0 c size) c size = None
  /\ (forall (c' : string) (size' : Z),
        (c', size') <> (c, size) ->
        findExistingTip (deleteTip tips0 c size) c' size'
        = findExistingTip tips0 c' size')
  /\ (findExistingTip tips0 c size = None -> deleteTip tips0 c size = tips0)
  /\ (uniqueSlots tips0 ->
      uniqueSlots (deleteTip tips0 c size)
      /\ (findExistingTip tips0 c size <> None ->
          S (List.length (deleteTip tips0 c size)) = List.length tips0)).
Proof.
  unfold findExistingTip, deleteTip.
  split; [apply find_deleted |].
  split; [intros c' size' Hne; apply find_other; exact Hne |].
  split; [apply filter_absent |].
  intros Hu. split; [apply uniqueSlots_filter; exact Hu |].
  intros Hne.
  destruct (find (sameSlot c size) tips0) as [old |] eqn:Ef; [| contradiction].
  eapply delete_one; eassumption.
Qed.

(** X22: in [calculateStats] the two counts never exceed the total together,
    and they add up to the total exactly when every tip has size 10 or
    100. *)
Theorem calculateStats_counts (tips0 : list Tip) :
  let st := calculateStats tips0 in
  total st = List.length tips0
  /\ (tip10Count st + tip100Count st <= total st)%nat
  /\ ((tip10Count st + tip100Count st = total st)%nat
      <-> Forall (fun t => tipSize t = 10%Z \/ tipSize t = 100%Z) tips0).
Proof.
  cbv zeta. unfold calculateStats; simpl.
  split; [reflexivity |].
  induction tips0 as [| t l [IHle IHeq]]; simpl.
  - split; [lia | split; [constructor | reflexivity]].
  - pose proof (filter_length_le (fun t => (tipSize t =? 10)%Z) l) as H10.
    pose proof (filter_length_le (fun t => (tipSize t =? 100)%Z) l) as H100.
    destruct (tipSize t =? 10)%Z eqn:E10;
      [apply Z.eqb_eq in E10 | apply Z.eqb_neq in E10];
      (destruct (tipSize t =? 100)%Z eqn:E100;
       [apply Z.eqb_eq in E100 | apply Z.eqb_neq in E100]); simpl.
    + lia.
    + split; [lia |]. split.
      * intros H. constructor; [left; exact E10 | apply IHeq; lia].
      * intros H. inversion H as [| ? ? _ Hl]; subst. apply IHeq in Hl. lia.
    + split; [lia |]. split.
      * intros H. constructor; [right; exact E100 | apply IHeq; lia].
      * intros H. inversion H as [| ? ? _ Hl]; subst. apply IHeq in Hl. lia.
    + split; [lia |]. split.
      * intros H. lia.
      * intros H. inversion H as [| ? ? Ht _]; subst. lia.
Qed.

(** *** Tokens *)

(** X23: for a count and a number of tips per token (5 when none is given)
    that are integers a JavaScript number holds exactly, the count
    non-negative and below [2^53], the number of tips per token positive and
    at most [2^53]: the tokens earned are the whole number of full groups of
    tips, and [wouldEarnToken] tells exactly when one more tip earns one more
    token: the count of tokens goes up by one if it answers [true] and stays
    the same if it answers [false]. *)
Theorem wouldEarnToken_step (currentCount : Z) (tipsPerToken : option Z) :
  (0 <= currentCount < 2 ^ 53)%Z ->
  (0 < defaultTipsPerToken tipsPerToken <= 2 ^ 53)%Z ->
  exists k : Z,
    calculateTokensEarned currentCount tipsPerToken = Some k
    /\ (defaultTipsPerToken tipsPerToken * k <= currentCount
        < defaultTipsPerToken tipsPerToken * (k + 1))%Z
    /\ calculateTokensEarned (currentCount + 1) tipsPerToken
       = Some (if wouldEarnToken currentCount tipsPerToken then k + 1 else k)%Z.
Proof.
  intros [Hc _] [Ht _]. unfold calculateTokensEarned, wouldEarnToken.
  set (t := defaultTipsPerToken tipsPerToken) in *.
  replace (t =? 0)%Z with false by (symmetry; apply Z.eqb_neq; lia).
  exists (currentCount / t)%Z.
  pose proof (Z.div_mod currentCount t ltac:(lia)) as Hdm.
  pose proof (Z.mod_pos_bound currentCount t Ht) as Hmb.
  split; [reflexivity | split; [nia |]].
  rewrite Z.rem_mod_nonneg by lia.
  f_equal.
  destruct (Z.eq_dec (currentCount mod t + 1) t) as [Hfull | Hpart].
  - assert (Hd : ((currentCount + 1) / t = currentCount / t + 1)%Z).
    { symmetry. apply (Z.div_unique _ _ _ 0); [left; lia | nia]. }
    assert (Hm : ((currentCount + 1) mod t = 0)%Z).
    { symmetry. apply (Z.mod_unique _ _ (currentCount / t + 1)); [left; lia | nia]. }
    rewrite Hd, Hm. reflexivity.
  - assert (Hd : ((currentCount + 1) / t = currentCount / t)%Z).
    { symmetry. apply (Z.div_unique _ _ _ (currentCount mod t + 1)); [left; lia | nia]. }
    assert (Hm : ((currentCount + 1) mod t = currentCount mod t + 1)%Z).
    { symmetry. apply (Z.mod_unique _ _ (currentCount / t)); [left; lia | nia]. }
    rewrite Hd, Hm.
    replace (currentCount mod t + 1 =? 0)%Z with false
      by (symmetry; apply Z.eqb_neq; lia).
    reflexivity.
Qed.

(** *** Instances *)

Lemma asciiToUpperCase_capitals (l : string) :
  In l tip100_colLabels -> asciiToUpperCase l = l.
Proof.
  simpl. intros H.
  repeat (destruct H as [<- | H]; [reflexivity |]). contradiction.
Qed.

Lemma grid_coord_round_trip_witness :
  (forall l : string, In l tip100_colLabels -> asciiToUpperCase l = l)
  /\ gridPositionToCoord 3 7 10 = Some "D8"%string
  /\ parseCoordToGridPosition asciiToUpperCase "D8" 10
     = Some {| row := 3; col := 7 |}.
Proof.
  split; [exact asciiToUpperCase_capitals | split; [reflexivity |]].
  apply (grid_coord_round_trip asciiToUpperCase 3 7 10 "D8"
           asciiToUpperCase_capitals eq_refl).
Defined.

Lemma parse_coord_sound_witness :
  parseCoordToGridPosition asciiToUpperCase "l8" 100
  = Some {| row := 7; col := 11 |}
  /\ (2 <= String.length "l8")%nat
  /\ (100 = 10 \/ 100 = 100)%Z
  /\ (0 <= 7 < rows)%Z /\ (0 <= 11 < cols)%Z
  /\ gridPositionToCoord 7 11 100
     = Some (asciiToUpperCase (charAt0 "l8") ++ slice1 "l8")%string.
Proof.
  split; [reflexivity |].
  apply (parse_coord_sound asciiToUpperCase "l8" 100 {| row := 7; col := 11 |} eq_refl).
Defined.

Lemma uniqueSlots_musk_rose : uniqueSlots [musk; rose].
Proof.
  unfold uniqueSlots. simpl.
  repeat (constructor; [simpl; intuition discriminate |]). constructor.
Qed.

Lemma addTip_unique_witness :
  uniqueSlots [musk; rose]
  /\ (let r := addTip [musk; rose] cedar true in
      uniqueSlots (tips r)
      /\ List.length (tips r)
         = (if isSome (findExistingTip [musk; rose] (coord cedar) (tipSize cedar))
            then List.length [musk; rose] else S (List.length [musk; rose]))).
Proof.
  split; [exact uniqueSlots_musk_rose |].
  apply (addTip_unique [musk; rose] cedar true uniqueSlots_musk_rose).
Defined.

Lemma wouldEarnToken_step_witness :
  (0 <= 4 < 2 ^ 53)%Z
  /\ (0 < defaultTipsPerToken None <= 2 ^ 53)%Z
  /\ exists k : Z,
       calculateTokensEarned 4 None = Some k
       /\ (defaultTipsPerToken None * k <= 4 < defaultTipsPerToken None * (k + 1))%Z
       /\ calculateTokensEarned (4 + 1) None
          = Some (if wouldEarnToken 4 None then k + 1 else k)%Z.
Proof.
  assert (Hc : (0 <= 4 < 2 ^ 53)%Z) by lia.
  assert (Ht : (0 < defaultTipsPerToken None <= 2 ^ 53)%Z) by (simpl; lia).
  split; [exact Hc | split; [exact Ht |]].
  apply (wouldEarnToken_step 4 None Hc Ht).
Defined.

End TipTrackerFacts.
